(** * Exploratory-data-analysis helpers of [src/functions/eda_utils.py]

    A shallow embedding of the eight routines of the module
    ([normality_check], [kruskal], [correlation_coef], [plot_percentage],
    [correlation_matrix], [plot_combined_boxplot], [eda], [traveller_type])
    together with the part of pandas, SciPy and matplotlib they call.

    Conventions of the embedding.
    - float64 arithmetic is idealised as exact arithmetic: finite values are
      rationals ([Q], kept reduced with [Qred]), NaN is a separate value, and
      the few irrational results (standard deviation, Pearson correlation,
      chi-square tail, Shapiro-Wilk) are carried as symbolic [number]s whose
      algebraic part has a meaning in [R]. Rounding is not modelled; the
      finite range of float64 is, where a correlation is computed: a sum of
      squares too large is infinite and one too small is zero. A summary
      ([describe]) is computed exactly: it stands for the float64 result as
      long as the values, their sums and their squared deviations stay
      within the range of float64 ([summary_in_range]).
    - [stats.kruskal] differs between the releases of SciPy, and the module
      pins none: the release is a parameter of [kruskal].
    - a DataFrame is a Python object on a heap; routines receive a reference,
      and every console line or displayed figure is an event of the world.
    - string formatting ([:.3f], [fmt='.2f']) is not modelled: events carry
      the values that are formatted.
    - row labels (the pandas index) are not modelled: no routine reads them. *)

From Stdlib Require Import QArith Qreduction Qround Qabs Qreals Reals Lra Lqa Lia Permutation Sorted.
From stdpp Require Import base list strings gmap.

Local Open Scope Q_scope.

(** ** Cells, columns and tables *)

(** A value stored in a table cell. [CNA] is the missing value (NaN/None);
    [CStr] is text that does not spell a number, so that it has no float
    value. *)
Inductive cell :=
| CNum (q : Q)
| CBool (b : bool)
| CStr (s : string)
| CNA.

(** The dtype of a column: pandas keeps it per column, not per cell. *)
Inductive dtype := Float64 | Boolean | Object.

Record Series := mkSeries { dt : dtype; cells : list cell }.

(** A DataFrame: named columns, in order. *)
Record DataFrame := mkFrame { columns : list (string * Series) }.

Definition nrows (df : DataFrame) : nat :=
  match columns df with
  | [] => O
  | (_, s) :: _ => length (cells s)
  end.

(** Every column has the same number of rows. *)
Definition wf (df : DataFrame) : Prop :=
  Forall (fun c => length (cells (snd c)) = nrows df) (columns df).

(** ** Exceptions and the error monad of pure library calls *)

Inductive exn :=
| KeyError (key : cell)
| ValueError (msg : string)
| TypeError (msg : string)
| IndexError (i len : nat).

Definition res (A : Type) : Type := exn + A.

Definition ok {A} (a : A) : res A := inr a.
Definition fail {A} (e : exn) : res A := inl e.

Definition rbind {A B} (m : res A) (k : A -> res B) : res B :=
  match m with
  | inl e => inl e
  | inr a => k a
  end.

Notation "x <-? m ; k" := (rbind m (fun x => k))
  (at level 100, m at next level, right associativity).

Fixpoint rmap {A B} (f : A -> res B) (l : list A) : res (list B) :=
  match l with
  | [] => ok []
  | a :: l' => b <-? f a; bs <-? rmap f l'; ok (b :: bs)
  end.

(** ** Python and pandas primitives *)

Definition Qbool (b : bool) : Q := if b then 1 else 0.

(** Python's [==] on cell values: [1 == True], NaN equals nothing. *)
Definition cell_eqb (a b : cell) : bool :=
  match a, b with
  | CNum p, CNum q => Qeq_bool p q
  | CNum p, CBool c | CBool c, CNum p => Qeq_bool p (Qbool c)
  | CBool c, CBool d => Bool.eqb c d
  | CStr s, CStr t => String.eqb s t
  | _, _ => false
  end.

(** Equality of hash-table keys ([unique], [groupby], [value_counts]): as
    [==], except that missing values are one key. *)
Definition key_eqb (a b : cell) : bool :=
  match a, b with
  | CNA, CNA => true
  | _, _ => cell_eqb a b
  end.

Definition is_na (c : cell) : bool :=
  match c with CNA => true | _ => false end.

(** Conversion to float64: a string does not convert. *)
Definition as_float (c : cell) : res (option Q) :=
  match c with
  | CNum q => ok (Some q)
  | CBool b => ok (Some (Qbool b))
  | CNA => ok None
  | CStr s => fail (ValueError "could not convert string to float")
  end.

Definition as_floats (l : list cell) : res (list (option Q)) :=
  rmap as_float l.

(** [dropna] on a float array. *)
Definition dropna (l : list (option Q)) : list Q := omap (fun o => o) l.

Fixpoint assoc (name : string) (cols : list (string * Series)) : option Series :=
  match cols with
  | [] => None
  | (n, s) :: cols' => if String.eqb n name then Some s else assoc name cols'
  end.

(** [df[name]] *)
Definition getcol (df : DataFrame) (name : string) : res Series :=
  match assoc name (columns df) with
  | Some s => ok s
  | None => fail (KeyError (CStr name))
  end.

(** [df[[n1, ..., nk]]] *)
Definition select (df : DataFrame) (names : list string) : res DataFrame :=
  cols <-? rmap (fun n => s <-? getcol df n; ok (n, s)) names;
  ok (mkFrame cols).

(** [series == value] *)
Definition eq_mask (s : Series) (v : cell) : list bool :=
  map (fun c => cell_eqb c v) (cells s).

(** Keep the entries whose mask bit is set. *)
Fixpoint take_mask {A} (mask : list bool) (l : list A) : list A :=
  match mask, l with
  | b :: mask', a :: l' => if b then a :: take_mask mask' l' else take_mask mask' l'
  | _, _ => []
  end.

Definition mask_series (mask : list bool) (s : Series) : Series :=
  mkSeries (dt s) (take_mask mask (cells s)).

(** [df[mask]]: boolean indexing keeps the schema and filters every column. *)
Definition mask_frame (mask : list bool) (df : DataFrame) : DataFrame :=
  mkFrame (map (fun c => (fst c, mask_series mask (snd c))) (columns df)).

(** [df[df[splitter] == split]] *)
Definition where_eq (df : DataFrame) (splitter : string) (split : cell)
  : res DataFrame :=
  s <-? getcol df splitter;
  ok (mask_frame (eq_mask s split) df).

(** [series.unique()]: distinct values in order of first appearance. *)
Fixpoint unique_acc (seen : list cell) (l : list cell) : list cell :=
  match l with
  | [] => []
  | c :: l' =>
      if existsb (key_eqb c) seen then unique_acc seen l'
      else c :: unique_acc (c :: seen) l'
  end.

Definition unique (l : list cell) : list cell := unique_acc [] l.

(** *** Sorting *)

Section Sorting.
Context {A : Type} (before : A -> A -> bool).

(** [insert_sorted x l]: [x] goes in front of the first element that is
    not strictly [before] it. *)
Fixpoint insert_sorted (x : A) (l : list A) : list A :=
  match l with
  | [] => [x]
  | y :: l' => if before y x then y :: insert_sorted x l' else x :: y :: l'
  end.

Definition sort_by (l : list A) : list A := foldr insert_sorted [] l.

(** [may_precede a b]: [b] is not strictly before [a]. *)
Definition may_precede (a b : A) : Prop := before b a = false.
End Sorting.

(** Order of group keys: numbers (and booleans) by value, then strings in
    code-point order. *)
Definition key_ltb (a b : cell) : bool :=
  match a, b with
  | CNum p, CNum q => negb (Qle_bool q p)
  | CNum p, CBool c => negb (Qle_bool (Qbool c) p)
  | CBool c, CNum q => negb (Qle_bool q (Qbool c))
  | CBool c, CBool d => negb (Qle_bool (Qbool d) (Qbool c))
  | (CNum _ | CBool _), CStr _ => true
  | CStr s, CStr t => String.ltb s t
  | _, _ => false
  end.

(** *** Aggregation *)

Definition Qsum (l : list Q) : Q := foldr Qplus 0 l.

(** [mean] with [skipna=True]: NaN ([None]) when nothing is left. *)
Definition mean (l : list (option Q)) : option Q :=
  match dropna l with
  | [] => None
  | x :: xs => Some (Qred (Qsum (x :: xs) / inject_Z (Z.of_nat (length (x :: xs)))))
  end.

(** The sorted group keys of [groupby]: missing keys are dropped. *)
Definition group_keys (keys : list cell) : list cell :=
  sort_by key_ltb (unique (List.filter (fun c => negb (is_na c)) keys)).

(** The values of the rows whose key is [k]. *)
Definition group_of {A} (keys : list cell) (vals : list A) (k : cell) : list A :=
  take_mask (map (fun c => key_eqb c k) keys) vals.

(** [df.groupby(splitter)[feature].mean()] *)
Definition groupby_mean (df : DataFrame) (splitter feature : string)
  : res (list (cell * option Q)) :=
  ks <-? getcol df splitter;
  fs <-? getcol df feature;
  vals <-? match as_floats (cells fs) with
           | inl _ => fail (TypeError "agg function failed [how->mean,dtype->object]")
           | inr v => ok v
           end;
  ok (map (fun k => (k, mean (group_of (cells ks) vals k))) (group_keys (cells ks))).

(** [series * 100] *)
Definition times100 (s : list (cell * option Q)) : list (cell * option Q) :=
  map (fun kv => (fst kv, option_map (fun q => Qred (q * 100)) (snd kv))) s.

(** [series.sort_values(ascending=False)]: non-increasing values, NaN last.
    Entries with equal values keep their order, as NumPy's sort does on
    short arrays. *)
Definition value_gtb {K} (a b : K * Q) : bool := negb (Qle_bool (snd a) (snd b)).

Definition with_value {K} (kv : K * option Q) : option (K * Q) :=
  match snd kv with
  | Some q => Some (fst kv, q)
  | None => None
  end.

Definition sort_values_desc {K} (s : list (K * option Q)) : list (K * option Q) :=
  map (fun kq => (fst kq, Some (snd kq))) (sort_by value_gtb (omap with_value s))
  ++ List.filter (fun kv => match snd kv with None => true | Some _ => false end) s.

(** The Series [percent] of [plot_percentage] (line 134). *)
Definition percent_series (df : DataFrame) (splitter feature : string)
  : res (list (cell * option Q)) :=
  m <-? groupby_mean df splitter feature;
  ok (sort_values_desc (times100 m)).

(** ** Statistics *)

(** A printed or plotted number. Irrational results are symbolic: [Sqrt q]
    is the square root of [q], [DivSqrt n d] is [n / sqrt d], [Chi2Sf h k]
    the upper tail of the chi-square law with [k] degrees of freedom at [h],
    [ShapiroW xs] and [ShapiroP xs] the Shapiro-Wilk statistic and p-value
    of the sample [xs]. *)
Inductive number :=
| Rat (q : Q)
| NaN
| Sqrt (q : Q)
| DivSqrt (n d : Q)
| Chi2Sf (h : Q) (dof : nat)
| ShapiroW (xs : list Q)
| ShapiroP (xs : list Q).

(** The real number an algebraic [number] stands for. *)
Definition number_R (x : number) : option R :=
  match x with
  | Rat q => Some (Q2R q)
  | Sqrt q => Some (sqrt (Q2R q))
  | DivSqrt n d => Some (Q2R n / sqrt (Q2R d))%R
  | _ => None
  end.

Definition of_float (o : option Q) : number :=
  match o with
  | Some q => Rat q
  | None => NaN
  end.

Definition Qlen {A} (l : list A) : Q := inject_Z (Z.of_nat (length l)).

Definition Qltb (a b : Q) : bool := negb (Qle_bool b a).

(** *** The range of float64 *)

(** The largest finite value, the smallest positive one, and the smallest
    positive one that is held with full precision. *)
Definition float_max : Q := inject_Z (2 ^ 1024 - 2 ^ 971).
Definition float_tiny : Q := Qmake 1 (2 ^ 1074).

(** A magnitude above [float_max] is infinite in float64. *)
Definition overflows (q : Q) : bool := Qltb float_max (Qabs q).

(** A magnitude below [float_tiny] is zero in float64. *)
Definition vanishes (q : Q) : bool := Qltb (Qabs q) float_tiny.

(** *** Pearson correlation ([DataFrame.corr], pandas' [nancorr]) *)

(** The observations on which both columns are present. *)
Fixpoint complete_pairs (x y : list (option Q)) : list (Q * Q) :=
  match x, y with
  | Some a :: x', Some b :: y' => (a, b) :: complete_pairs x' y'
  | _ :: x', _ :: y' => complete_pairs x' y'
  | _, _ => []
  end.

Definition swap (p : Q * Q) : Q * Q := (snd p, fst p).

(** Sum of the products of the deviations from [mx] and [my]. *)
Definition codeviation (mx my : Q) (ps : list (Q * Q)) : Q :=
  Qsum (map (fun p => (fst p - mx) * (snd p - my)) ps).

(** [covxy / sqrt (ssx * ssy)] as float64 computes it from the three sums,
    NaN when the divisor is zero. An infinite sum of squares makes the
    divisor infinite (or NaN against a zero), and the quotient 0 (or NaN
    when [covxy] is infinite too); so does a product [ssx * ssy] that is
    infinite. A sum of squares or a product that is zero in float64 makes
    the divisor zero. *)
Definition correlation_value (covxy ssx ssy : Q) : number :=
  if overflows ssx || overflows ssy then
    if vanishes ssx || vanishes ssy then NaN
    else if overflows covxy then NaN
    else Rat 0
  else if vanishes ssx || vanishes ssy then NaN
  else if overflows (ssx * ssy) then Rat 0
  else if vanishes (ssx * ssy) then NaN
  else DivSqrt (Qred covxy) (Qred (ssx * ssy)).

(** The correlation of paired observations: NaN without observations
    ([min_periods = 1]) or when the divisor [sqrt (ssx * ssy)] is zero. *)
Definition pearson_pairs (ps : list (Q * Q)) : number :=
  match ps with
  | [] => NaN
  | _ :: _ =>
      let mx := Qsum (map fst ps) / Qlen ps in
      let my := Qsum (map snd ps) / Qlen ps in
      let covxy := codeviation mx my ps in
      let ssx := codeviation mx mx (map (fun p => (fst p, fst p)) ps) in
      let ssy := codeviation my my (map (fun p => (snd p, snd p)) ps) in
      correlation_value covxy ssx ssy
  end.

(** One entry of the correlation matrix. *)
Definition pearson (x y : list (option Q)) : number :=
  pearson_pairs (complete_pairs x y).

(** The matrix is filled for [yi <= xi] with [x] the column [xi] and [y] the
    column [yi], and each value is stored at both [xi, yi] and [yi, xi]. *)
Definition corr_entry (cols : list (list (option Q))) (i j : nat) : number :=
  let xi := Nat.max i j in
  let yi := Nat.min i j in
  match cols !! xi, cols !! yi with
  | Some x, Some y => pearson x y
  | _, _ => NaN
  end.

Definition corr_of (cols : list (list (option Q))) : list (list number) :=
  map (fun i => map (fun j => corr_entry cols i j) (seq 0 (length cols)))
      (seq 0 (length cols)).

(** [df.corr()]: every column is converted to float64 first. *)
Definition corr (df : DataFrame) : res (list (list number)) :=
  cols <-? rmap (fun c => as_floats (cells (snd c))) (columns df);
  ok (corr_of cols).

(** [matrix.iloc[i, j]] *)
Definition iloc (m : list (list number)) (i j : nat) : res number :=
  match m !! i with
  | None => fail (IndexError i (length m))
  | Some row =>
      match row !! j with
      | None => fail (IndexError j (length row))
      | Some v => ok v
      end
  end.

(** *** Descriptive statistics ([describe]) *)

(** The [q]-quantile of a sorted sample, by linear interpolation. *)
Definition quantile (sorted : list Q) (q : Q) : number :=
  match sorted with
  | [] => NaN
  | x0 :: _ =>
      let pos := (Qlen sorted - 1) * q in
      let lo := Z.to_nat (Qfloor pos) in
      let frac := pos - inject_Z (Qfloor pos) in
      let a := nth lo sorted x0 in
      let b := nth (S lo) sorted a in
      Rat (Qred (a + frac * (b - a)))
  end.

(** Sample standard deviation ([ddof = 1]). *)
Definition std (v : list Q) : number :=
  match v with
  | [] | [_] => NaN
  | _ =>
      let m := Qsum v / Qlen v in
      Sqrt (Qred (Qsum (map (fun x => (x - m) * (x - m)) v) / (Qlen v - 1)))
  end.

Record num_summary := mkNumSummary {
  s_count : nat;
  s_mean : number;
  s_std : number;
  s_min : number;
  s_q25 : number;
  s_q50 : number;
  s_q75 : number;
  s_max : number
}.

(** The summary of a numeric column: missing values are skipped. *)
Definition summary (xs : list (option Q)) : num_summary :=
  let v := dropna xs in
  let sorted := sort_by Qltb v in
  {| s_count := length v;
     s_mean := of_float (mean xs);
     s_std := std v;
     s_min := of_float (head sorted);
     s_q25 := quantile sorted (1 # 4);
     s_q50 := quantile sorted (1 # 2);
     s_q75 := quantile sorted (3 # 4);
     s_max := of_float (last sorted) |}.

(** [series.value_counts()]: the present values with their number of
    occurrences, most frequent first. *)
Definition count_gtb (a b : cell * nat) : bool := Nat.ltb (snd b) (snd a).

Definition value_counts (l : list cell) : list (cell * nat) :=
  let present := List.filter (fun c => negb (is_na c)) l in
  sort_by count_gtb
    (map (fun k => (k, length (List.filter (fun c => key_eqb c k) present)))
         (unique present)).

Record obj_summary := mkObjSummary {
  o_count : nat;
  o_unique : nat;
  o_top : cell;
  o_freq : option nat
}.

(** The summary of a column that is not numeric. *)
Definition summary_categorical (l : list cell) : obj_summary :=
  let vc := value_counts l in
  {| o_count := length (List.filter (fun c => negb (is_na c)) l);
     o_unique := length vc;
     o_top := match vc with [] => CNA | (k, _) :: _ => k end;
     o_freq := match vc with [] => None | (_, n) :: _ => Some n end |}.

Inductive description :=
| Numeric (rows : list (string * num_summary))
| Categorical (rows : list (string * obj_summary)).

Definition is_numeric (s : Series) : bool :=
  match dt s with Float64 => true | _ => false end.

(** [df.describe()]: the numeric columns when there are some, else all
    columns summarised as categories. *)
Definition describe (df : DataFrame) : res description :=
  match columns df with
  | [] => fail (ValueError "Cannot describe a DataFrame without columns")
  | _ :: _ =>
      match List.filter (fun c => is_numeric (snd c)) (columns df) with
      | [] =>
          ok (Categorical
                (map (fun c => (fst c, summary_categorical (cells (snd c))))
                     (columns df)))
      | num =>
          rows <-? rmap (fun c => xs <-? as_floats (cells (snd c));
                                  ok (fst c, summary xs)) num;
          ok (Numeric rows)
      end
  end.

Inductive summary1 :=
| NumSummary (s : num_summary)
| ObjSummary (s : obj_summary).

(** [series.describe()] *)
Definition describe_series (s : Series) : res summary1 :=
  if is_numeric s then xs <-? as_floats (cells s); ok (NumSummary (summary xs))
  else ok (ObjSummary (summary_categorical (cells s))).

(** [df.groupby(splitter)[feature].describe()] *)
Definition groupby_describe (df : DataFrame) (splitter feature : string)
  : res (list (cell * summary1)) :=
  ks <-? getcol df splitter;
  fs <-? getcol df feature;
  rmap (fun k => d <-? describe_series
                        (mkSeries (dt fs) (group_of (cells ks) (cells fs) k));
                 ok (k, d))
       (group_keys (cells ks)).

(** *** SciPy: Shapiro-Wilk and Kruskal-Wallis *)

(** The values of a sample, or [None] when one of them is missing: the
    tests propagate NaN. *)
Definition all_present (xs : list (option Q)) : option (list Q) :=
  if forallb (fun o => match o with Some _ => true | None => false end) xs
  then Some (dropna xs) else None.

(** [stats.shapiro]: releases of SciPy up to 1.12 reject a sample of fewer
    than three observations. *)
Definition stats_shapiro (s : Series) : res (number * number) :=
  xs <-? as_floats (cells s);
  if Nat.ltb (length xs) 3 then fail (ValueError "Data must be at least length 3.")
  else match all_present xs with
       | None => ok (NaN, NaN)
       | Some v => ok (ShapiroW v, ShapiroP v)
       end.

Definition countQ (P : Q -> bool) (l : list Q) : Q := Qlen (List.filter P l).

(** [rankdata]: the average rank of [x] among [all]. *)
Definition rank_in (all : list Q) (x : Q) : Q :=
  countQ (fun y => Qltb y x) all + (countQ (Qeq_bool x) all + 1) / 2.

(** [tiecorrect]: [1 - sum (t^3 - t) / (n^3 - n)] over the groups of tied
    values, [t] their sizes. The sum over tie groups of [t^3 - t] is written
    as the sum over observations of [t^2 - 1]. *)
Definition tiecorrect (all : list Q) : Q :=
  let n := Qlen all in
  if Nat.ltb (length all) 2 then 1
  else 1 - Qsum (map (fun x => countQ (Qeq_bool x) all * countQ (Qeq_bool x) all - 1) all)
           / (n * n * n - n).

(** The releases of SciPy that differ on [stats.kruskal]: those up to 1.16,
    and 1.17. *)
Inductive scipy_release := SciPy_1_16 | SciPy_1_17.

(** A missing value among the observations of numeric samples. *)
Definition has_nan (samples : list Series) : bool :=
  match rmap (fun s => as_floats (cells s)) samples with
  | inr groups =>
      existsb (existsb (fun o => match o with None => true | Some _ => false end)) groups
  | inl _ => false
  end.

Definition has_empty (samples : list Series) : bool :=
  existsb (fun s => Nat.eqb (length (cells s)) 0) samples.

(** The strings of a sample of text. *)
Fixpoint texts (l : list cell) : option (list string) :=
  match l with
  | [] => Some []
  | CStr s :: l' => option_map (cons s) (texts l')
  | _ :: _ => None
  end.

(** Strings are ranked in code-point order: a string stands for the number
    of observations before it. *)
Definition text_code (all : list string) (s : string) : Q :=
  Qlen (List.filter (fun t => String.ltb t s) all).

(** The observations of the samples as numbers that rank like them: floats
    are themselves and strings are their [text_code]; text mixed with
    numbers or missing values does not compare. *)
Definition comparable (samples : list Series) : res (list (list Q)) :=
  match rmap (fun s => as_floats (cells s)) samples with
  | inr groups => ok (map dropna groups)
  | inl _ =>
      ts <-? rmap (fun s => match texts (cells s) with
                            | Some t => ok t
                            | None => fail (TypeError "'<' not supported between instances of 'str' and 'float'")
                            end) samples;
      ok (map (map (text_code (concat ts))) ts)
  end.

(** Fewer than two samples: a usage error, which 1.17 reports only for no
    sample at all, one sample running into an out-of-range access. *)
Definition too_few (release : scipy_release) (n : nat) : option exn :=
  match n, release with
  | O, _ | 1%nat, SciPy_1_16 =>
      Some (ValueError "Need at least two groups in stats.kruskal()")
  | 1%nat, SciPy_1_17 => Some (IndexError 1 1)
  | _, _ => None
  end.

(** The statistic and the p-value of samples without missing value, none
    empty. With a tie correction of zero, that is when all observations are
    equal, releases up to 1.16 refuse and 1.17 divides by zero. *)
Definition kruskal_test (release : scipy_release) (gs : list (list Q))
  : res (number * number) :=
  let all := concat gs in
  let ties := tiecorrect all in
  if Qeq_bool ties 0
  then match release with
       | SciPy_1_16 => fail (ValueError "All numbers are identical in kruskal")
       | SciPy_1_17 => ok (NaN, NaN)
       end
  else
    let ssbn :=
      Qsum (map (fun g => let r := Qsum (map (rank_in all) g) in
                          r * r / Qlen g) gs) in
    let n := Qlen all in
    let h := (12 / (n * (n + 1)) * ssbn - 3 * (n + 1)) / ties in
    ok (Rat (Qred h), Chi2Sf (Qred h) (length gs - 1)).

(** [stats.kruskal], called with the samples unpacked from a list. A
    missing value ([nan_policy='propagate']) or an empty sample gives NaN;
    up to 1.16 the wrapper that applies the policy returns it before the
    test counts its samples. *)
Definition stats_kruskal (release : scipy_release) (samples : list Series)
  : res (number * number) :=
  let degenerate := has_nan samples || has_empty samples in
  let early :=
    match release with
    | SciPy_1_16 => degenerate
    | SciPy_1_17 => false
    end in
  if early then ok (NaN, NaN)
  else match too_few release (length samples) with
       | Some e => fail e
       | None =>
           if degenerate then ok (NaN, NaN)
           else gs <-? comparable samples; kruskal_test release gs
       end.

(** ** Figures, console lines and the world *)

(** One subplot of the Q-Q grid: the sample drawn in it and its title. *)
Record panel := mkPanel { qq : option (list (option Q)); title : option cell }.

Definition empty_panel : panel := mkPanel None None.

(** The [color] argument of a bar plot: one colour name or a list, whose
    entries may be [None]. *)
Inductive colour :=
| Colour (name : string)
| Colours (l : list (option string)).

Inductive figure :=
| FigQQ (panels : list panel)
| FigBar (splitter feature : string) (bars : list (cell * option Q))
         (col : colour) (labels : list (option Q))
| FigHeatmap (labels : list string) (m : list (list number))
| FigBox (split : cell) (data : DataFrame)
| FigPie (split : cell) (slices : list (cell * Q)) (colors : list string).

Inductive line :=
| LShapiro (feature : string) (split : cell) (stat p : number)
| LKruskal (stat p : number)
| LCorrelation (a b : string) (r : number)
| LDescribe (d : description)
| LHeader (split : cell)
| LGroupDescribe (d : list (cell * summary1)).

Inductive event :=
| Print (l : line)
| Show (f : figure).

(** A reference to a DataFrame object. *)
Definition ref := nat.

(** The heap of DataFrame objects and what was printed and shown so far. *)
Record World := mkWorld { frames : list DataFrame; out : list event }.

(** Stateful code: an exception leaves the world as it was when raised. *)
Definition M (A : Type) : Type := World -> res A * World.

Definition ret {A} (a : A) : M A := fun w => (ok a, w).

Definition bind {A B} (m : M A) (k : A -> M B) : M B :=
  fun w =>
    match m w with
    | (inl e, w') => (inl e, w')
    | (inr a, w') => k a w'
    end.

Notation "x <- m ;; k" := (bind m (fun x => k))
  (at level 100, m at next level, right associativity).
Notation "m ;;; k" := (bind m (fun _ => k))
  (at level 100, right associativity).

(** A pure library call, whose exception propagates. *)
Definition lift {A} (r : res A) : M A := fun w => (r, w).

Definition emit (e : event) : M unit :=
  fun w => (ok tt, mkWorld (frames w) (out w ++ [e])).

(** Reading the object behind a reference. References come from the caller
    or from [alloc], so they always denote an object. *)
Definition deref (r : ref) : M DataFrame :=
  fun w => (ok (default (mkFrame []) (frames w !! r)), w).

(** A new object, as created by [df[mask]]. *)
Definition alloc (d : DataFrame) : M ref :=
  fun w => (ok (length (frames w)), mkWorld (frames w ++ [d]) (out w)).

Fixpoint mapM {A B} (f : A -> M B) (l : list A) : M (list B) :=
  match l with
  | [] => ret []
  | a :: l' => b <- f a ;; bs <- mapM f l' ;; ret (b :: bs)
  end.

Fixpoint foldM {A S} (f : S -> A -> M S) (s : S) (l : list A) : M S :=
  match l with
  | [] => ret s
  | a :: l' => s' <- f s a ;; foldM f s' l'
  end.

(** [enumerate] *)
Definition enumerate {A} (l : list A) : list (nat * A) :=
  combine (seq 0 (length l)) l.

(** [l[i]] for [i >= 0] *)
Definition getitem {A} (l : list A) (i : nat) : res A :=
  match l !! i with
  | Some a => ok a
  | None => fail (IndexError i (length l))
  end.

(** *** matplotlib *)

(** What [plt.subplots] returns with [squeeze=True]: a single Axes for a
    1x1 grid, else an array of them. *)
Inductive axes_obj :=
| OneAxes (p : panel)
| AxesArray (l : list panel).

Definition plt_subplots (nrows ncols : Z) : res axes_obj :=
  if (nrows <=? 0)%Z then fail (ValueError "Number of rows must be a positive integer")
  else if (ncols <=? 0)%Z then fail (ValueError "Number of columns must be a positive integer")
  else if (nrows * ncols =? 1)%Z then ok (OneAxes empty_panel)
  else ok (AxesArray (replicate (Z.to_nat (nrows * ncols)) empty_panel)).

(** [stats.probplot(x, dist="norm", plot=ax)]: the sample drawn on the
    axes; nothing is drawn for an empty sample. *)
Definition stats_probplot (s : Series) (ax : panel) : res panel :=
  xs <-? as_floats (cells s);
  match xs with
  | [] => ok ax
  | _ :: _ => ok (mkPanel (Some xs) (title ax))
  end.

Definition set_title (ax : panel) (t : cell) : panel := mkPanel (qq ax) (Some t).

(** A missing value is drawn as a bar of height 0. *)
Definition drawn_height (o : option Q) : Q :=
  match o with
  | Some q => q
  | None => 0
  end.

(** [series.plot(kind='bar')]: pandas refuses a Series without entries. The
    result is the heights of the bars drawn. *)
Definition series_plot_bar (percent : list (cell * option Q)) : res (list Q) :=
  match percent with
  | [] => fail (IndexError 0 0)
  | _ :: _ => ok (map (fun kv => drawn_height (snd kv)) percent)
  end.

(** [plt.pie]: a pie needs a slice. *)
Definition plt_pie (split : cell) (slices : list (cell * Q)) (colors : list string)
  : res figure :=
  match slices with
  | [] => fail (ValueError "All wedge sizes are zero")
  | _ :: _ => ok (FigPie split slices colors)
  end.

(** [sns.heatmap]: the colour range is the minimum and maximum of the
    matrix, which an empty matrix does not have. *)
Definition sns_heatmap (labels : list string) (m : list (list number)) : res figure :=
  match m with
  | [] => fail (ValueError "zero-size array to reduction operation fmin which has no identity")
  | _ :: _ => ok (FigHeatmap labels m)
  end.

(** ** The routines of [eda_utils.py] *)

(** [df[df[splitter] == split][feature]], on the table and through a
    reference. *)
Definition group_series (d : DataFrame) (splitter feature : string) (split : cell)
  : res Series :=
  sub <-? where_eq d splitter split;
  getcol sub feature.

Definition group_feature (df : ref) (splitter feature : string) (split : cell)
  : M Series :=
  d <- deref df ;;
  lift (group_series d splitter feature split).

(** The body of the loop of [normality_check] (lines 41-47), with the list
    [axes] as the loop state. *)
Definition normality_step (splitter feature : string) (df : ref)
    (axes : list panel) (it : nat * cell) : M (list panel) :=
  let i := fst it in
  let split := snd it in
  x <- group_feature df splitter feature split ;;
  shapiro_test <- lift (stats_shapiro x) ;;
  emit (Print (LShapiro feature split (fst shapiro_test) (snd shapiro_test))) ;;;
  x <- group_feature df splitter feature split ;;
  ax <- lift (getitem axes i) ;;
  ax <- lift (stats_probplot x ax) ;;
  let axes := <[i := ax]> axes in
  ax <- lift (getitem axes i) ;;
  ret (<[i := set_title ax split]> axes).

Definition normality_check (ver_plots hor_plots : Z) (splitter feature : string)
    (df : ref) : M unit :=
  axes <- lift (plt_subplots ver_plots hor_plots) ;;
  let axes := match axes with
              | AxesArray l => l
              | OneAxes p => [p]
              end in
  d <- deref df ;;
  col <- lift (getcol d splitter) ;;
  axes <- foldM (normality_step splitter feature df) axes
                (enumerate (unique (cells col))) ;;
  emit (Show (FigQQ axes)).

(** [scipy] is the installed release of SciPy. *)
Definition kruskal (scipy : scipy_release) (splitter feature : string) (df : ref)
  : M unit :=
  d <- deref df ;;
  col <- lift (getcol d splitter) ;;
  overall_ratings <- mapM (group_feature df splitter feature) (unique (cells col)) ;;
  r <- lift (stats_kruskal scipy overall_ratings) ;;
  emit (Print (LKruskal (fst r) (snd r))).

Definition correlation_coef (feature_a feature_b : string) (df : ref) : M unit :=
  d <- deref df ;;
  sel <- lift (select d [feature_a; feature_b]) ;;
  m <- lift (corr sel) ;;
  correlation <- lift (iloc m 0 1) ;;
  emit (Print (LCorrelation feature_a feature_b correlation)).

Definition plot_percentage (splitter feature : string) (df : ref) (colour : colour)
  : M unit :=
  d <- deref df ;;
  percent <- lift (percent_series d splitter feature) ;;
  heights <- lift (series_plot_bar percent) ;;
  emit (Show (FigBar splitter feature percent colour (map Some heights))).

(** The default value of the parameter [colour]. *)
Definition skyblue : colour := Colour "skyblue".

Definition correlation_matrix (features : list string) (df : ref) : M unit :=
  d <- deref df ;;
  sel <- lift (select d features) ;;
  m <- lift (corr sel) ;;
  fig <- lift (sns_heatmap features m) ;;
  emit (Show fig).

Definition plot_combined_boxplot (split : cell) (features : list string) (df : ref)
  : M unit :=
  d <- deref df ;;
  sel <- lift (select d features) ;;
  emit (Show (FigBox split sel)).

Definition eda (splitter : string) (split : cell) (features : list string)
    (df : ref) : M unit :=
  d <- deref df ;;
  sub <- lift (where_eq d splitter split) ;;
  df_eda <- alloc sub ;;
  d <- deref df_eda ;;
  sel <- lift (select d features) ;;
  stats <- lift (describe sel) ;;
  emit (Print (LDescribe stats)) ;;;
  plot_combined_boxplot split features df_eda ;;;
  correlation_matrix features df_eda.

(** The dictionary [color_map] of [traveller_type]. *)
Definition color_map : gmap string string :=
  <["Solo Leisure" := "lightblue"]>
  (<["Business" := "red"]>
  (<["Family Leisure" := "green"]>
  (<["Couple Leisure" := "orange"]> ∅)))%string.

(** [d[k]]: raises [KeyError] on a key that is not in the dictionary. *)
Definition dict_getitem (d : gmap string string) (k : cell) : res string :=
  match k with
  | CStr s =>
      match d !! s with
      | Some v => ok v
      | None => fail (KeyError k)
      end
  | _ => fail (KeyError k)
  end.

(** [d.get(k)]: [None] on a key that is not in the dictionary. *)
Definition dict_get (d : gmap string string) (k : cell) : option string :=
  match k with
  | CStr s => d !! s
  | _ => None
  end.

(** [counts / counts.sum() * 100] *)
Definition shares (counts : list (cell * nat)) : list (cell * Q) :=
  let total := Qsum (map (fun kn => inject_Z (Z.of_nat (snd kn))) counts) in
  map (fun kn => (fst kn, Qred (inject_Z (Z.of_nat (snd kn)) / total * 100))) counts.

(** The colour list of the pie chart (line 294). *)
Definition pie_colors (traveller_types : list cell) : res (list string) :=
  rmap (dict_getitem color_map) traveller_types.

(** The colour list of the bar chart (line 300). *)
Definition bar_colors (types : list cell) : res (list (option string)) :=
  rmap (fun traveller => ok (dict_get color_map traveller)) types.

Definition traveller_type (split : cell) (df : ref) : M unit :=
  d <- deref df ;;
  summary_stats <- lift (groupby_describe d "Type of Traveller" "Overall Rating") ;;
  emit (Print (LHeader split)) ;;;
  emit (Print (LGroupDescribe summary_stats)) ;;;
  d <- deref df ;;
  col <- lift (getcol d "Type of Traveller") ;;
  let traveller_counts := value_counts (cells col) in
  let traveller_percentages := shares traveller_counts in
  let traveller_types := map fst traveller_percentages in
  colors <- lift (pie_colors traveller_types) ;;
  d <- deref df ;;
  type_percent <- lift (percent_series d "Type of Traveller" "Recommended") ;;
  colors2 <- lift (bar_colors (map fst type_percent)) ;;
  pie <- lift (plt_pie split traveller_percentages colors) ;;
  emit (Show pie) ;;;
  plot_percentage "Type of Traveller" "Recommended" df (Colours colors2).

(** A call on a table [d]: the heap holds [d] alone and nothing has been
    printed. The result is the exception, if any, and the events. *)
Definition call (f : ref -> M unit) (d : DataFrame) : res unit * list event :=
  let r := f O (mkWorld [d] []) in
  (fst r, out (snd r)).

(** ** Specification-side notions *)





(** The height of the bar of [k] in the bar charts shown. *)
Fixpoint bar_height (k : cell) (evs : list event) : option Q :=
  match evs with
  | Show (FigBar _ _ bars _ _) :: evs' =>
      match List.find (fun kv => key_eqb (fst kv) k) bars with
      | Some (_, Some q) => Some q
      | _ => bar_height k evs'
      end
  | _ :: evs' => bar_height k evs'
  | [] => None
  end.

(** The correlation printed by a call of [correlation_coef]. *)
Definition printed_correlation (o : res unit * list event) : option number :=
  match snd o with
  | [Print (LCorrelation _ _ v)] => Some v
  | _ => None
  end.

(** The distinct values of a column and their number, as [normality_check]
    and [kruskal] enumerate them. *)
Definition groups_of (df : DataFrame) (splitter : string) : list cell :=
  match getcol df splitter with
  | inr ks => unique (cells ks)
  | inl _ => []
  end.

Definition n_groups (df : DataFrame) (splitter : string) : nat :=
  length (groups_of df splitter).

(** Column names and dtypes. *)
Definition schema (df : DataFrame) : list (string * dtype) :=
  map (fun c => (fst c, dt (snd c))) (columns df).

(** Row [i] of a table. *)
Definition row_at (df : DataFrame) (i : nat) : list cell :=
  map (fun c => nth i (cells (snd c)) CNA) (columns df).

(** The numbers of the rows whose [keys] entry equals [split], in order. *)
Definition matching (keys : list cell) (split : cell) : list nat :=
  List.filter (fun i => cell_eqb (nth i keys CNA) split) (seq 0 (length keys)).

(** The rows of [df] whose [splitter] cell equals [split]. *)
Definition rows_where (df : DataFrame) (splitter : string) (split : cell)
  : list (list cell) :=
  match getcol df splitter with
  | inr ks => map (row_at df) (matching (cells ks) split)
  | inl _ => []
  end.

(** The table with the given schema and rows. *)
Definition frame_of_rows (sch : list (string * dtype)) (rows : list (list cell))
  : DataFrame :=
  mkFrame (imap (fun j c => (fst c, mkSeries (snd c) (map (fun r => nth j r CNA) rows)))
                sch).

(** Running one step after another: the second runs if the first returned. *)
Definition and_then (a b : res unit * list event) : res unit * list event :=
  match fst a with
  | inl e => a
  | inr _ => (fst b, snd a ++ snd b)
  end.

(** Printing the standard summary of the columns [features] of [d]. *)
Definition print_summary (features : list string) (d : DataFrame)
  : res unit * list event :=
  match sel <-? select d features; describe sel with
  | inl e => (inl e, [])
  | inr stats => (ok tt, [Print (LDescribe stats)])
  end.

(** No existing object of the heap is changed or removed. *)
Definition unchanged (w w' : World) : Prop :=
  forall (r : ref) (d : DataFrame), frames w !! r = Some d -> frames w' !! r = Some d.

(** The heap after is the heap before, followed by new objects. *)
Definition extends (w w' : World) : Prop :=
  exists fresh, frames w' = frames w ++ fresh.

(** A computation that only allocates. *)
Definition frame_safe {A} (m : M A) : Prop := forall w, extends w (snd (m w)).

(** A routine that reads one table and prints or shows: called on a
    reference to [d] in any world, it does what [call] does on [d]. *)
Definition reads_table (f : ref -> M unit) : Prop :=
  forall (w : World) (r : ref) (d : DataFrame),
    frames w !! r = Some d ->
    f r w = (fst (call f d), mkWorld (frames w) (out w ++ snd (call f d))).

(** An out-of-range access. *)
Definition is_index_error (e : exn) : Prop :=
  match e with
  | IndexError _ _ => True
  | _ => False
  end.

(** No two keys of the list are equal. *)
Definition distinct_keys (l : list cell) : Prop :=
  ForallOrdPairs (fun a b => key_eqb a b = false) l.

(** The summary of a numeric column without values. *)
Definition empty_summary : num_summary :=
  mkNumSummary 0 NaN NaN NaN NaN NaN NaN NaN.

(** A natural number as a rational. *)
Definition Qnat (n : nat) : Q := inject_Z (Z.of_nat n).




(** *** The standard summary, stated on the values themselves *)







(** ** Examples *)

Definition df_example : DataFrame :=
  mkFrame [ ("Recommended"%string, mkSeries Float64 [CNum 1; CNum 0; CNum 1; CNum 1]);
            ("Type"%string, mkSeries Object [CStr "A"; CStr "A"; CStr "B"; CStr "B"]) ].



(** Three reviews of one cabin. *)
Definition df_one_group : DataFrame :=
  mkFrame [ ("Class"%string, mkSeries Object [CStr "Economy"; CStr "Economy"; CStr "Economy"]);
            ("Overall Rating"%string, mkSeries Float64 [CNum 1; CNum 5; CNum 8]) ].

(** Reviews of two cabins with the ratings as text. *)
Definition df_text_ratings : DataFrame :=
  mkFrame [ ("Class"%string, mkSeries Object [CStr "Economy"; CStr "Business"; CStr "Economy"]);
            ("Overall Rating"%string, mkSeries Object [CStr "poor"; CStr "good"; CStr "fine"]) ].

(** Two tables with the same Economy row; the second has a text entry in
    the Business row, which makes its rating column an object column. *)
Definition df_clean : DataFrame :=
  mkFrame [ ("Class"%string, mkSeries Object [CStr "Economy"; CStr "Business"]);
            ("Overall Rating"%string, mkSeries Float64 [CNum 1; CNum 2]) ].

Definition df_dirty : DataFrame :=
  mkFrame [ ("Class"%string, mkSeries Object [CStr "Economy"; CStr "Business"]);
            ("Overall Rating"%string, mkSeries Object [CNum 1; CStr "n/a"]) ].

(** Same schema as [df_clean], same Economy row, other Business rows. *)
Definition df_other : DataFrame :=
  mkFrame [ ("Class"%string, mkSeries Object [CStr "Business"; CStr "Economy"; CStr "Business"]);
            ("Overall Rating"%string, mkSeries Float64 [CNum 9; CNum 1; CNum 7]) ].

Definition df_travellers : DataFrame :=
  mkFrame [ ("Type of Traveller"%string,
             mkSeries Object [CStr "Business"; CStr "Solo Leisure"; CStr "Business"; CStr "Backpacker"]);
            ("Overall Rating"%string, mkSeries Float64 [CNum 1; CNum 2; CNum 3; CNum 4]);
            ("Recommended"%string, mkSeries Boolean [CBool true; CBool false; CBool false; CBool true]) ].

(** Three prices whose squares are beyond the range of float64. *)
Definition df_huge : DataFrame :=
  mkFrame [ ("Price"%string,
             mkSeries Float64 [CNum (inject_Z (2 ^ 600)); CNum (inject_Z (2 ^ 601));
                               CNum (inject_Z (3 * 2 ^ 600))]) ].

(** A table without rows. *)
Definition df_empty : DataFrame :=
  mkFrame [ ("Type"%string, mkSeries Object []);
            ("Recommended"%string, mkSeries Float64 []) ].

Definition df_ratings : DataFrame :=
  mkFrame [ ("Class"%string,
             mkSeries Object [CStr "A"; CStr "A"; CStr "A"; CStr "B"; CStr "B"; CStr "B"]);
            ("Food"%string, mkSeries Float64 [CNum 1; CNum 2; CNum 3; CNum 4; CNum 5; CNum 7]);
            ("Staff"%string, mkSeries Float64 [CNum 2; CNum 2; CNum 5; CNum 4; CNum 5; CNum 1]) ].

Example percent_example :
  percent_series df_example "Type" "Recommended"
  = ok [(CStr "B", Some 100); (CStr "A", Some 50)].
Proof. vm_compute. reflexivity. Qed.

Example kruskal_example (scipy : scipy_release) :
  call (kruskal scipy "Class" "Food") df_ratings
  = (ok tt, [Print (LKruskal (Rat (27 # 7)) (Chi2Sf (27 # 7) 1))]).
Proof. destruct scipy; vm_compute; reflexivity. Qed.

(** Ratings given as words are ranked in alphabetical order. *)
Example kruskal_text_example :
  call (kruskal SciPy_1_16 "Class" "Overall Rating") df_text_ratings
  = (ok tt, [Print (LKruskal (Rat 0) (Chi2Sf 0 1))]).
Proof. vm_compute. reflexivity. Qed.

(** Squares that overflow: the correlation of the column with itself is
    infinity divided by infinity. *)
Example correlation_overflow_example :
  call (correlation_coef "Price" "Price") df_huge
  = (ok tt, [Print (LCorrelation "Price" "Price" NaN)]).
Proof. vm_compute. reflexivity. Qed.

(** Without rows there is no group: the empty Series cannot be drawn. *)
Example plot_percentage_empty_example :
  call (fun df => plot_percentage "Type" "Recommended" df skyblue) df_empty
  = (fail (IndexError 0 0), []).
Proof. vm_compute. reflexivity. Qed.

Example correlation_example :
  call (correlation_coef "Food" "Staff") df_ratings
  = (ok tt, [Print (LCorrelation "Food" "Staff" (DivSqrt (-2 # 3) (3115 # 9)))]).
Proof. vm_compute. reflexivity. Qed.

Example rows_where_example :
  rows_where df_other "Class" (CStr "Economy") = [[CStr "Economy"; CNum 1]].
Proof. reflexivity. Qed.

(** ** Basic facts *)

Lemma key_eqb_refl (c : cell) : key_eqb c c = true.
Proof.
  destruct c as [q|b|s|]; cbn.
  - apply Qeq_bool_iff. reflexivity.
  - destruct b; reflexivity.
  - apply String.eqb_refl.
  - reflexivity.
Qed.


Section SortingFacts.
Context {A : Type} (before : A -> A -> bool).

Lemma insert_sorted_perm (x : A) (l : list A) :
  Permutation (insert_sorted before x l) (x :: l).
Proof.
  induction l as [|y l IH]; cbn; [reflexivity|].
  destruct (before y x); [|reflexivity].
  rewrite IH. apply perm_swap.
Qed.

Lemma sort_by_perm (l : list A) : Permutation (sort_by before l) l.
Proof.
  induction l as [|x l IH]; cbn; [reflexivity|].
  rewrite insert_sorted_perm. constructor. exact IH.
Qed.

Lemma sort_by_In (l : list A) (x : A) : In x (sort_by before l) <-> In x l.
Proof.
  split; apply Permutation_in; [|symmetry]; apply sort_by_perm.
Qed.


Hypothesis before_asym : forall a b, before a b = true -> before b a = false.

Lemma insert_sorted_hd (x y : A) (l : list A) :
  (may_precede before) y x -> HdRel (may_precede before) y l -> HdRel (may_precede before) y (insert_sorted before x l).
Proof.
  intros Hyx Hl. destruct l as [|z l]; cbn.
  - constructor. exact Hyx.
  - destruct (before z x); constructor; [|exact Hyx].
    inversion Hl; assumption.
Qed.

Lemma insert_sorted_sorted (x : A) (l : list A) :
  Sorted (may_precede before) l -> Sorted (may_precede before) (insert_sorted before x l).
Proof.
  induction 1 as [|y l Hs IH Hhd]; cbn.
  - repeat constructor.
  - destruct (before y x) eqn:E.
    + constructor; [exact IH|].
      apply insert_sorted_hd; [|exact Hhd].
      apply before_asym. exact E.
    + constructor; [constructor; assumption|].
      constructor. exact E.
Qed.

Lemma sort_by_sorted (l : list A) : Sorted (may_precede before) (sort_by before l).
Proof.
  induction l as [|x l IH]; cbn; [constructor|].
  apply insert_sorted_sorted, IH.
Qed.
End SortingFacts.

Lemma unique_acc_covers (l seen : list cell) (c : cell) :
  In c l ->
  existsb (key_eqb c) seen = true \/ existsb (key_eqb c) (unique_acc seen l) = true.
Proof.
  revert seen. induction l as [|x l IH]; intros seen Hin; [destruct Hin|].
  cbn [unique_acc]. destruct Hin as [->|Hin].
  - destruct (existsb (key_eqb c) seen) eqn:E; [left; reflexivity|].
    right. cbn. rewrite key_eqb_refl. reflexivity.
  - destruct (existsb (key_eqb x) seen) eqn:E.
    + apply IH, Hin.
    + destruct (IH (x :: seen) Hin) as [H|H].
      * cbn in H. apply orb_true_iff in H as [H|H].
        -- right. cbn. rewrite H. reflexivity.
        -- left. exact H.
      * right. cbn. rewrite H. apply orb_true_r.
Qed.

Lemma unique_acc_In (l seen : list cell) (c : cell) :
  In c (unique_acc seen l) -> In c l.
Proof.
  revert seen. induction l as [|x l IH]; intros seen; cbn; [tauto|].
  destruct (existsb (key_eqb x) seen).
  - intros H. right. eapply IH, H.
  - intros [H|H]; [left; exact H|right; eapply IH, H].
Qed.

Lemma unique_covers (l : list cell) (c : cell) :
  In c l -> exists u, In u (unique l) /\ key_eqb c u = true.
Proof.
  intros Hin. destruct (unique_acc_covers l [] c Hin) as [H|H]; [discriminate H|].
  apply existsb_exists in H. exact H.
Qed.

Lemma unique_In (l : list cell) (c : cell) : In c (unique l) -> In c l.
Proof. apply unique_acc_In. Qed.

(** ** The colour lists of [traveller_type] *)

Lemma dict_get_key_eqb (t t' : cell) :
  key_eqb t t' = true -> dict_get color_map t = None -> dict_get color_map t' = None.
Proof.
  destruct t as [q|b|s|], t' as [q'|b'|s'|]; cbn; try discriminate; try reflexivity.
  intros E%String.eqb_eq. subst s'. trivial.
Qed.

Lemma dict_getitem_get (t : cell) :
  dict_getitem color_map t
  = match dict_get color_map t with
    | Some v => ok v
    | None => fail (KeyError t)
    end.
Proof. destruct t; reflexivity. Qed.

Lemma pie_colors_unmapped (types : list cell) (t : cell) :
  In t types -> dict_get color_map t = None ->
  exists t', In t' types /\ dict_get color_map t' = None
             /\ pie_colors types = fail (KeyError t').
Proof.
  unfold pie_colors. induction types as [|x types IH]; intros Hin Ht; [destruct Hin|].
  cbn [rmap]. rewrite dict_getitem_get.
  destruct (dict_get color_map x) as [v|] eqn:Ex.
  - destruct Hin as [->|Hin]; [congruence|].
    destruct (IH Hin Ht) as (t' & Hin' & Ht' & E).
    exists t'. split; [right; exact Hin'|]. split; [exact Ht'|].
    cbn. rewrite E. reflexivity.
  - exists x. split; [left; reflexivity|]. split; [exact Ex|reflexivity].
Qed.

Lemma bar_colors_total (types : list cell) :
  bar_colors types = ok (map (dict_get color_map) types).
Proof.
  unfold bar_colors. induction types as [|t types IH]; [reflexivity|].
  cbn [rmap map]. rewrite IH. reflexivity.
Qed.

Lemma value_counts_keys (l : list cell) (k : cell) :
  In k (map fst (value_counts l)) <-> In k (unique (List.filter (fun c => negb (is_na c)) l)).
Proof.
  unfold value_counts.
  set (present := List.filter _ l).
  set (f := fun k0 : cell => (k0, length (List.filter (fun c => key_eqb c k0) present))).
  split.
  - intros H. apply in_map_iff in H as ([k' n] & <- & H).
    apply sort_by_In in H. apply in_map_iff in H as (u & E & H).
    unfold f in E. injection E as -> _. exact H.
  - intros H. apply in_map_iff. exists (f k). split; [reflexivity|].
    apply sort_by_In. apply in_map. exact H.
Qed.

Lemma shares_keys (counts : list (cell * nat)) :
  map fst (shares counts) = map fst counts.
Proof. unfold shares. rewrite map_map. reflexivity. Qed.

Lemma observed_category_counted (l : list cell) (t : cell) :
  In t l -> is_na t = false ->
  exists t', In t' (map fst (value_counts l)) /\ In t' l /\ key_eqb t t' = true.
Proof.
  intros Hin Hna.
  destruct (unique_covers (List.filter (fun c => negb (is_na c)) l) t) as (u & Hu & E).
  { apply filter_In. split; [exact Hin|]. rewrite Hna. reflexivity. }
  exists u. split; [apply value_counts_keys; exact Hu|]. split; [|exact E].
  apply unique_In in Hu. apply filter_In in Hu. tauto.
Qed.

(** C4 (amended): an observed category that is not in [color_map] makes the
    colour list of the pie chart raise [KeyError], and [traveller_type]
    stops there, after the two printed lines; the colour list of the bar
    chart is built with [get] and never raises: it holds [None] for such a
    category. *)
Theorem C4_unmapped_category
    (split : cell) (d : DataFrame) (col : Series) (stats : list (cell * summary1))
    (t : cell) :
  getcol d "Type of Traveller" = ok col ->
  groupby_describe d "Type of Traveller" "Overall Rating" = ok stats ->
  In t (cells col) -> is_na t = false -> dict_get color_map t = None ->
  (exists t', In t' (cells col) /\ dict_get color_map t' = None
     /\ pie_colors (map fst (shares (value_counts (cells col)))) = fail (KeyError t')
     /\ call (traveller_type split) d
        = (fail (KeyError t'), [Print (LHeader split); Print (LGroupDescribe stats)]))
  /\ (forall types, bar_colors types = ok (map (dict_get color_map) types)).
Proof.
  intros Hcol Hstats Hin Hna Hun. split; [|apply bar_colors_total].
  destruct (observed_category_counted _ _ Hin Hna) as (u & Hu & Hul & E).
  rewrite <- shares_keys in Hu.
  destruct (pie_colors_unmapped _ u Hu (dict_get_key_eqb _ _ E Hun))
    as (t' & Hin' & Hun' & Hpie).
  exists t'. split.
  { rewrite shares_keys in Hin'. apply value_counts_keys, unique_In, filter_In in Hin'. tauto. }
  split; [exact Hun'|]. split; [exact Hpie|].
  unfold call, traveller_type, bind, lift, deref, emit. cbn.
  rewrite Hstats. cbn. rewrite Hcol. cbn. rewrite Hpie. reflexivity.
Qed.

Lemma C4_unmapped_category_witness :
  exists t', In t' (cells (mkSeries Object [CStr "Business"; CStr "Solo Leisure"; CStr "Business"; CStr "Backpacker"]))
    /\ dict_get color_map t' = None
    /\ fst (call (traveller_type (CStr "Economy")) df_travellers) = fail (KeyError t').
Proof.
  destruct (C4_unmapped_category (CStr "Economy") df_travellers
              (mkSeries Object [CStr "Business"; CStr "Solo Leisure"; CStr "Business"; CStr "Backpacker"])
              (match groupby_describe df_travellers "Type of Traveller" "Overall Rating" with
               | inr s => s | inl _ => [] end)
              (CStr "Backpacker"))
    as [(t' & H1 & H2 & _ & H4) _].
  - reflexivity.
  - vm_compute. reflexivity.
  - cbn. tauto.
  - reflexivity.
  - vm_compute. reflexivity.
  - exists t'. rewrite H4. auto.
Defined.

(** C4 (as stated): it is not the case that both colour lists raise on an
    unmapped category; the one of the bar chart does not. *)
Lemma C4_counterexample :
  ~ (forall (types : list cell) (t : cell),
        In t types -> dict_get color_map t = None ->
        (exists e, pie_colors types = fail e) /\ (exists e, bar_colors types = fail e)).
Proof.
  intros H.
  destruct (H [CStr "Backpacker"] (CStr "Backpacker")) as [_ [e He]].
  - left; reflexivity.
  - vm_compute. reflexivity.
  - vm_compute in He. discriminate He.
Qed.

(** ** The percentages of [plot_percentage] *)




Lemma getcol_In (df : DataFrame) (name : string) (s : Series) :
  getcol df name = ok s -> In (name, s) (columns df).
Proof.
  unfold getcol. destruct df as [cols]. cbn.
  induction cols as [|[n c] cols IH]; cbn; [discriminate|].
  destruct (String.eqb n name) eqn:E.
  - apply String.eqb_eq in E. subst n. intros [= ->]. left. reflexivity.
  - intros H. right. apply IH, H.
Qed.

Lemma getcol_length (df : DataFrame) (name : string) (s : Series) :
  wf df -> getcol df name = ok s -> length (cells s) = nrows df.
Proof.
  intros Hwf H. apply getcol_In in H.
  unfold wf in Hwf. rewrite List.Forall_forall in Hwf. exact (Hwf _ H).
Qed.






Lemma filter_length_le {A} (p : A -> bool) (l : list A) :
  (length (List.filter p l) <= length l)%nat.
Proof.
  induction l as [|a l IH]; cbn; [lia|]. destruct (p a); cbn; lia.
Qed.




Lemma group_keys_In (keys : list cell) (k : cell) :
  In k (group_keys keys) -> In k keys /\ is_na k = false.
Proof.
  unfold group_keys. intros H. apply sort_by_In, unique_In, filter_In in H.
  destruct H as [H1 H2]. split; [exact H1|]. destruct (is_na k); [discriminate|reflexivity].
Qed.

Lemma group_keys_covers (keys : list cell) (c : cell) :
  In c keys -> is_na c = false ->
  exists k, In k (group_keys keys) /\ key_eqb c k = true.
Proof.
  intros Hin Hna.
  destruct (unique_covers (List.filter (fun c => negb (is_na c)) keys) c) as (u & Hu & E).
  { apply filter_In. rewrite Hna. split; [exact Hin|reflexivity]. }
  exists u. split; [|exact E]. apply sort_by_In. exact Hu.
Qed.



Lemma Sorted_weaken {A} (R R' : A -> A -> Prop) (l : list A) :
  (forall a b, R a b -> R' a b) -> Sorted R l -> Sorted R' l.
Proof.
  intros HR. induction 1 as [|a l _ IH Hhd]; constructor; [exact IH|].
  destruct Hhd; constructor. apply HR. assumption.
Qed.





(** *** Group keys *)

Lemma Qeq_bool_sym (p q : Q) : Qeq_bool p q = Qeq_bool q p.
Proof.
  destruct (Qeq_bool q p) eqn:E.
  - apply Qeq_bool_iff. apply Qeq_bool_iff in E. symmetry. exact E.
  - destruct (Qeq_bool p q) eqn:E'; [|reflexivity].
    apply Qeq_bool_iff in E'. symmetry in E'. apply Qeq_bool_iff in E'. congruence.
Qed.

Lemma key_eqb_sym (a b : cell) : key_eqb a b = key_eqb b a.
Proof.
  destruct a as [p|c|s|], b as [q|e|t|]; cbn; try reflexivity.
  - apply Qeq_bool_sym.
  - destruct c, e; reflexivity.
  - apply String.eqb_sym.
Qed.

Lemma unique_acc_distinct (l seen : list cell) :
  distinct_keys (unique_acc seen l)
  /\ forall u, In u (unique_acc seen l) -> existsb (key_eqb u) seen = false.
Proof.
  revert seen. induction l as [|x l IH]; intros seen; cbn [unique_acc].
  - split; [constructor|]. intros u [].
  - destruct (existsb (key_eqb x) seen) eqn:E; [apply IH|].
    destruct (IH (x :: seen)) as [Hd Hs]. split.
    + constructor; [|exact Hd]. apply List.Forall_forall. intros u Hu.
      specialize (Hs u Hu). cbn in Hs. apply orb_false_iff in Hs as [Hs _].
      rewrite key_eqb_sym. exact Hs.
    + intros u [<-|Hu]; [exact E|].
      specialize (Hs u Hu). cbn in Hs. apply orb_false_iff in Hs as [_ Hs]. exact Hs.
Qed.

Lemma distinct_keys_perm (l l' : list cell) :
  Permutation l l' -> distinct_keys l -> distinct_keys l'.
Proof.
  unfold distinct_keys. induction 1 as [|x l l' Hp IH|x y l|l l' l'' _ IH1 _ IH2]; intros H.
  - constructor.
  - inversion H as [|? ? Hx Hl]; subst. constructor; [|apply IH; exact Hl].
    eapply Permutation_Forall; eassumption.
  - inversion H as [|? ? Hy Hl]; subst. inversion Hl as [|? ? Hx Hl']; subst.
    inversion Hy as [|? ? Hyx Hy']; subst.
    constructor; [constructor; [rewrite key_eqb_sym; exact Hyx|exact Hx]|].
    constructor; assumption.
  - apply IH2, IH1, H.
Qed.


(** *** [sort_values] *)

Lemma sort_values_desc_split {K} (s : list (K * option Q)) :
  sort_values_desc s
  = map (fun kq => (fst kq, Some (snd kq))) (sort_by value_gtb (omap with_value s))
    ++ map (fun k => (k, None))
         (map fst (List.filter (fun kv => match snd kv with None => true | Some _ => false end) s)).
Proof.
  unfold sort_values_desc. f_equal. rewrite map_map.
  induction s as [|[k [q|]] s IH]; cbn; [reflexivity|exact IH|].
  f_equal. exact IH.
Qed.

Lemma sort_values_desc_keys {K} (s : list (K * option Q)) :
  Permutation
    (map fst (sort_by value_gtb (omap with_value s))
     ++ map fst (List.filter (fun kv => match snd kv with None => true | Some _ => false end) s))
    (map fst s).
Proof.
  rewrite (Permutation_map fst (sort_by_perm value_gtb (omap with_value s))).
  induction s as [|[k [q|]] s IH]; cbn.
  - reflexivity.
  - constructor. exact IH.
  - rewrite <- Permutation_middle. constructor. exact IH.
Qed.





(** C1 (amended): on the example table the bars are B = 100.0 and
    A = 50.0, displayed in this order. *)
Theorem C1_example_percentages :
  call (fun df => plot_percentage "Type" "Recommended" df skyblue) df_example
  = (ok tt, [Show (FigBar "Type" "Recommended"
                     [(CStr "B", Some 100); (CStr "A", Some 50)]
                     skyblue [Some 100; Some 50])]).
Proof. vm_compute. reflexivity. Qed.

(** C1 (as stated): the bars are not A = 50.0 and B = 50.0. *)
Lemma C1_counterexample :
  ~ (exists a b,
        bar_height (CStr "A")
          (snd (call (fun df => plot_percentage "Type" "Recommended" df skyblue) df_example))
        = Some a /\ a == 50 /\
        bar_height (CStr "B")
          (snd (call (fun df => plot_percentage "Type" "Recommended" df skyblue) df_example))
        = Some b /\ b == 50).
Proof.
  intros (a & b & _ & _ & Hb & Eb).
  vm_compute in Hb. injection Hb as <-. discriminate Eb.
Qed.

(** ** The heap is only extended *)

Create HintDb frame.

Lemma extends_refl (w : World) : extends w w.
Proof. exists []. symmetry. apply app_nil_r. Qed.

Lemma extends_trans (w1 w2 w3 : World) : extends w1 w2 -> extends w2 w3 -> extends w1 w3.
Proof.
  intros [f1 E1] [f2 E2]. exists (f1 ++ f2). rewrite E2, E1. symmetry. apply app_assoc.
Qed.

Lemma extends_unchanged (w w' : World) : extends w w' -> unchanged w w'.
Proof.
  intros [fresh E] r d H. rewrite E. apply lookup_app_l_Some. exact H.
Qed.

Lemma frame_safe_ret {A} (a : A) : frame_safe (ret a).
Proof. intros w. apply extends_refl. Qed.

Lemma frame_safe_lift {A} (r : res A) : frame_safe (lift r).
Proof. intros w. apply extends_refl. Qed.

Lemma frame_safe_emit (e : event) : frame_safe (emit e).
Proof. intros w. exists []. cbn. symmetry. apply app_nil_r. Qed.

Lemma frame_safe_deref (r : ref) : frame_safe (deref r).
Proof. intros w. apply extends_refl. Qed.

Lemma frame_safe_alloc (d : DataFrame) : frame_safe (alloc d).
Proof. intros w. exists [d]. reflexivity. Qed.

Lemma frame_safe_bind {A B} (m : M A) (k : A -> M B) :
  frame_safe m -> (forall a, frame_safe (k a)) -> frame_safe (bind m k).
Proof.
  intros Hm Hk w. unfold bind. specialize (Hm w).
  destruct (m w) as [[e|a] w']; cbn in *; [exact Hm|].
  eapply extends_trans; [exact Hm|apply Hk].
Qed.

Lemma frame_safe_mapM {A B} (f : A -> M B) (l : list A) :
  (forall a, frame_safe (f a)) -> frame_safe (mapM f l).
Proof.
  intros Hf. induction l as [|a l IH]; cbn.
  - apply frame_safe_ret.
  - apply frame_safe_bind; [apply Hf|]. intros b.
    apply frame_safe_bind; [exact IH|]. intros bs. apply frame_safe_ret.
Qed.

Lemma frame_safe_foldM {A S} (f : S -> A -> M S) (l : list A) (s : S) :
  (forall s a, frame_safe (f s a)) -> frame_safe (foldM f s l).
Proof.
  intros Hf. revert s. induction l as [|a l IH]; intros s; cbn.
  - apply frame_safe_ret.
  - apply frame_safe_bind; [apply Hf|]. intros s'. apply IH.
Qed.

#[local] Hint Resolve frame_safe_ret frame_safe_lift frame_safe_emit frame_safe_deref
  frame_safe_alloc : frame.

Ltac frame_safe_steps :=
  repeat first
    [ apply frame_safe_bind; [|intros ?]
    | apply frame_safe_mapM; intros ?
    | apply frame_safe_foldM; intros ? ?
    | solve [auto with frame] ].

Lemma frame_safe_normality_check ver hor splitter feature (df : ref) :
  frame_safe (normality_check ver hor splitter feature df).
Proof.
  unfold normality_check, normality_step, group_feature. frame_safe_steps.
Qed.

Lemma frame_safe_kruskal scipy splitter feature (df : ref) :
  frame_safe (kruskal scipy splitter feature df).
Proof. unfold kruskal, group_feature. frame_safe_steps. Qed.

Lemma frame_safe_correlation_coef a b (df : ref) :
  frame_safe (correlation_coef a b df).
Proof. unfold correlation_coef. frame_safe_steps. Qed.

Lemma frame_safe_plot_percentage splitter feature (df : ref) col :
  frame_safe (plot_percentage splitter feature df col).
Proof. unfold plot_percentage. frame_safe_steps. Qed.

Lemma frame_safe_correlation_matrix features (df : ref) :
  frame_safe (correlation_matrix features df).
Proof. unfold correlation_matrix. frame_safe_steps. Qed.

Lemma frame_safe_plot_combined_boxplot split features (df : ref) :
  frame_safe (plot_combined_boxplot split features df).
Proof. unfold plot_combined_boxplot. frame_safe_steps. Qed.

Lemma frame_safe_eda splitter split features (df : ref) :
  frame_safe (eda splitter split features df).
Proof.
  unfold eda, plot_combined_boxplot, correlation_matrix. frame_safe_steps.
Qed.

Lemma frame_safe_traveller_type split (df : ref) :
  frame_safe (traveller_type split df).
Proof. unfold traveller_type, plot_percentage. frame_safe_steps. Qed.

(** C9: no routine changes a table: whatever the arguments and the world
    [w] it is called in, every DataFrame object of [w], and so the table
    passed to the routine, is the same after the call, whether the routine
    returns or raises. *)
Theorem C9_tables_unchanged :
  (forall ver hor splitter feature df w,
      unchanged w (snd (normality_check ver hor splitter feature df w)))
  /\ (forall scipy splitter feature df w,
         unchanged w (snd (kruskal scipy splitter feature df w)))
  /\ (forall a b df w, unchanged w (snd (correlation_coef a b df w)))
  /\ (forall splitter feature df col w,
         unchanged w (snd (plot_percentage splitter feature df col w)))
  /\ (forall features df w, unchanged w (snd (correlation_matrix features df w)))
  /\ (forall split features df w,
         unchanged w (snd (plot_combined_boxplot split features df w)))
  /\ (forall splitter split features df w,
         unchanged w (snd (eda splitter split features df w)))
  /\ (forall split df w, unchanged w (snd (traveller_type split df w))).
Proof.
  repeat split; intros; apply extends_unchanged.
  - apply frame_safe_normality_check.
  - apply frame_safe_kruskal.
  - apply frame_safe_correlation_coef.
  - apply frame_safe_plot_percentage.
  - apply frame_safe_correlation_matrix.
  - apply frame_safe_plot_combined_boxplot.
  - apply frame_safe_eda.
  - apply frame_safe_traveller_type.
Qed.

(** ** Boolean indexing keeps exactly the matching rows *)

Lemma take_mask_nth_from {A} (f : cell -> bool) (d : A) (keys : list cell) (l : list A) (a : nat) :
  length l = length keys ->
  take_mask (map f keys) l
  = map (fun i => nth (i - a) l d)
        (List.filter (fun i => f (nth (i - a) keys CNA)) (seq a (length keys))).
Proof.
  revert l a. induction keys as [|k keys IH]; intros [|x l] a Hlen; cbn in Hlen; try lia.
  - reflexivity.
  - cbn [map take_mask length seq List.filter]. rewrite Nat.sub_diag. cbn [nth].
    assert (E : take_mask (map f keys) l
                = map (fun i => nth (i - a) (x :: l) d)
                    (List.filter (fun i => f (nth (i - a) (k :: keys) CNA))
                       (seq (S a) (length keys)))).
    { rewrite (IH l (S a)) by lia.
      rewrite (filter_ext_in (fun i => f (nth (i - a) (k :: keys) CNA))
                 (fun i => f (nth (i - S a) keys CNA))).
      2:{ intros i Hi. apply in_seq in Hi.
          replace (i - a)%nat with (S (i - S a)) by lia. reflexivity. }
      apply map_ext_in. intros i Hi. apply filter_In in Hi as [Hi _].
      apply in_seq in Hi. replace (i - a)%nat with (S (i - S a)) by lia. reflexivity. }
    destruct (f k); cbn [map]; rewrite ?Nat.sub_diag; cbn [nth]; rewrite E; reflexivity.
Qed.

Lemma take_mask_matching (split : cell) (keys l : list cell) :
  length l = length keys ->
  take_mask (map (fun c => cell_eqb c split) keys) l
  = map (fun i => nth i l CNA) (matching keys split).
Proof.
  intros Hlen. rewrite (take_mask_nth_from _ CNA keys l 0 Hlen). unfold matching.
  rewrite (filter_ext (fun i => cell_eqb (nth (i - 0) keys CNA) split)
             (fun i => cell_eqb (nth i keys CNA) split)).
  2:{ intros i. rewrite Nat.sub_0_r. reflexivity. }
  apply map_ext. intros i. rewrite Nat.sub_0_r. reflexivity.
Qed.

Lemma lookup_map {A B} (f : A -> B) (l : list A) (j : nat) :
  map f l !! j = f <$> (l !! j).
Proof. exact (list_lookup_fmap f l j). Qed.

(** A table is its schema and its rows. *)
Lemma frame_of_rows_restrict (d : DataFrame) (idx : list nat) :
  frame_of_rows (schema d) (map (row_at d) idx)
  = mkFrame (map (fun c => (fst c, mkSeries (dt (snd c))
                                     (map (fun i => nth i (cells (snd c)) CNA) idx)))
                 (columns d)).
Proof.
  unfold frame_of_rows, schema. f_equal. apply list_eq. intros j.
  rewrite list_lookup_imap, !lookup_map.
  destruct (columns d !! j) as [c|] eqn:E; cbn; [|reflexivity].
  do 3 f_equal. rewrite map_map. apply map_ext. intros i.
  unfold row_at. rewrite nth_lookup, lookup_map, E. reflexivity.
Qed.

(** [df[df[splitter] == split]] is the table of the rows of [df] whose
    [splitter] cell equals [split], with the schema of [df]. *)
Lemma where_eq_rows (d : DataFrame) (splitter : string) (split : cell) (ks : Series) :
  wf d -> getcol d splitter = ok ks ->
  where_eq d splitter split
  = ok (frame_of_rows (schema d) (rows_where d splitter split)).
Proof.
  intros Hwf Hks. unfold where_eq, rows_where. rewrite Hks. cbn [rbind ok].
  rewrite frame_of_rows_restrict. unfold mask_frame, mask_series, eq_mask, ok.
  do 2 f_equal. apply map_ext_in. intros c Hc. do 2 f_equal.
  apply take_mask_matching.
  rewrite (getcol_length d splitter ks Hwf Hks).
  unfold wf in Hwf. rewrite List.Forall_forall in Hwf. exact (Hwf c Hc).
Qed.

(** The row numbers selected are exactly those where the column equals
    the target, each once and in order. *)
Lemma matching_spec (keys : list cell) (split : cell) (i : nat) :
  In i (matching keys split)
  <-> (i < length keys)%nat /\ cell_eqb (nth i keys CNA) split = true.
Proof.
  unfold matching. rewrite filter_In, in_seq. intuition lia.
Qed.

Lemma matching_increasing (keys : list cell) (split : cell) :
  StronglySorted lt (matching keys split).
Proof.
  unfold matching. generalize 0%nat as a. generalize (length keys) as n.
  induction n as [|n IH]; intros a; cbn; [constructor|].
  destruct (cell_eqb (nth a keys CNA) split); [|apply IH].
  constructor; [apply IH|].
  apply List.Forall_forall. intros i Hi. apply filter_In in Hi as [Hi _].
  apply in_seq in Hi. lia.
Qed.

(** ** The standard summary *)





(** ** [eda] *)

Lemma world_eta (w : World) : mkWorld (frames w) (out w ++ []) = w.
Proof. destruct w. cbn. rewrite app_nil_r. reflexivity. Qed.

Lemma reads_table_boxplot (split : cell) (features : list string) :
  reads_table (plot_combined_boxplot split features).
Proof.
  intros w r d H. unfold call, plot_combined_boxplot, bind, lift, deref, emit.
  cbn. rewrite H. cbn.
  destruct (select d features); cbn; [rewrite world_eta|]; reflexivity.
Qed.

Lemma reads_table_correlation_matrix (features : list string) :
  reads_table (correlation_matrix features).
Proof.
  intros w r d H. unfold call, correlation_matrix, bind, lift, deref, emit.
  cbn. rewrite H. cbn.
  destruct (select d features) as [e|sel]; cbn; [rewrite world_eta; reflexivity|].
  destruct (corr sel) as [e|m]; cbn; [rewrite world_eta; reflexivity|].
  destruct (sns_heatmap features m); cbn; [rewrite world_eta|]; reflexivity.
Qed.

(** [eda] is its three steps run on the table [sub] it extracts. *)
Lemma eda_steps (d sub : DataFrame) (splitter : string) (split : cell)
    (features : list string) :
  where_eq d splitter split = ok sub ->
  call (eda splitter split features) d
  = and_then (print_summary features sub)
      (and_then (call (plot_combined_boxplot split features) sub)
                (call (correlation_matrix features) sub)).
Proof.
  intros Hsub.
  pose proof (reads_table_boxplot split features) as Hbox.
  pose proof (reads_table_correlation_matrix features) as Hcorr.
  unfold call at 1. unfold eda.
  set (box := plot_combined_boxplot split features) in *.
  set (heat := correlation_matrix features) in *.
  clearbody box heat.
  unfold bind, lift, deref, alloc, emit.
  cbn. rewrite Hsub. cbn. unfold print_summary.
  destruct (select sub features) as [e|sel]; cbn; [reflexivity|].
  destruct (describe sel) as [e|stats]; cbn; [reflexivity|].
  rewrite (Hbox (mkWorld [d; sub] [Print (LDescribe stats)]) 1%nat sub eq_refl).
  unfold and_then.
  destruct (call box sub) as [[e|[]] evs]; cbn; [reflexivity|].
  rewrite (Hcorr (mkWorld [d; sub] (Print (LDescribe stats) :: evs)) 1%nat sub eq_refl).
  cbn. reflexivity.
Qed.

Lemma getcol_schema (d1 d2 : DataFrame) (name : string) :
  schema d1 = schema d2 ->
  match getcol d1 name, getcol d2 name with
  | inr _, inr _ => True
  | inl e1, inl e2 => e1 = e2
  | _, _ => False
  end.
Proof.
  unfold schema, getcol. destruct d1 as [c1], d2 as [c2]. cbn.
  revert c2. induction c1 as [|[n1 s1] c1 IH]; intros [|[n2 s2] c2] E; cbn in E;
    try discriminate; cbn; [reflexivity|].
  injection E as -> _ E. destruct (String.eqb n2 name); [exact I|].
  apply IH. exact E.
Qed.

(** C10 (amended): two tables with the same column names and dtypes whose
    rows with [splitter] equal to [split] are the same give the same run of
    [eda]: the same printed statistics, the same box plot and heatmap, the
    same exception if any. *)
Theorem C10_eda_same_subset
    (d1 d2 : DataFrame) (splitter : string) (split : cell) (features : list string) :
  wf d1 -> wf d2 ->
  schema d1 = schema d2 ->
  rows_where d1 splitter split = rows_where d2 splitter split ->
  call (eda splitter split features) d1 = call (eda splitter split features) d2.
Proof.
  intros Hwf1 Hwf2 Hsch Hrows.
  pose proof (getcol_schema d1 d2 splitter Hsch) as Hcol.
  destruct (getcol d1 splitter) as [e1|ks1] eqn:E1, (getcol d2 splitter) as [e2|ks2] eqn:E2;
    try contradiction.
  - subst e2. unfold call, eda, bind, lift, deref, where_eq. cbn.
    rewrite E1, E2. reflexivity.
  - rewrite (eda_steps d1 _ splitter split features (where_eq_rows d1 splitter split ks1 Hwf1 E1)).
    rewrite (eda_steps d2 _ splitter split features (where_eq_rows d2 splitter split ks2 Hwf2 E2)).
    rewrite Hsch, Hrows. reflexivity.
Qed.

Lemma C10_eda_same_subset_witness :
  df_clean <> df_other
  /\ call (eda "Class" (CStr "Economy") ["Overall Rating"]%string) df_clean
     = call (eda "Class" (CStr "Economy") ["Overall Rating"]%string) df_other.
Proof.
  split; [discriminate|].
  apply (C10_eda_same_subset df_clean df_other).
  - repeat constructor.
  - repeat constructor.
  - reflexivity.
  - reflexivity.
Defined.

(** C10 (as stated): the two tables below have the same Economy row, and
    [eda] prints a numeric summary for one and a categorical summary for the
    other, because a text entry in the Business row changes the dtype of the
    rating column. *)
Lemma C10_counterexample :
  rows_where df_clean "Class" (CStr "Economy") = rows_where df_dirty "Class" (CStr "Economy")
  /\ map fst (columns df_clean) = map fst (columns df_dirty)
  /\ head (snd (call (eda "Class" (CStr "Economy") ["Overall Rating"]%string) df_clean))
     <> head (snd (call (eda "Class" (CStr "Economy") ["Overall Rating"]%string) df_dirty)).
Proof.
  split; [reflexivity|]. split; [reflexivity|].
  vm_compute. discriminate.
Qed.

(** ** Pearson correlation *)

Lemma Qsum_ext {A} (f g : A -> Q) (l : list A) :
  (forall a, In a l -> f a == g a) -> Qsum (map f l) == Qsum (map g l).
Proof.
  induction l as [|a l IH]; intros H; cbn; [reflexivity|].
  rewrite (H a) by (left; reflexivity).
  unfold Qsum in IH. rewrite IH; [reflexivity|].
  intros b Hb. apply H. right. exact Hb.
Qed.

Lemma Qsum_nonneg {A} (f : A -> Q) (l : list A) :
  (forall a, In a l -> 0 <= f a) -> 0 <= Qsum (map f l).
Proof.
  induction l as [|a l IH]; intros H; cbn; [lra|].
  assert (0 <= f a) by (apply H; left; reflexivity).
  assert (0 <= Qsum (map f l)) by (apply IH; intros b Hb; apply H; right; exact Hb).
  unfold Qsum in *. lra.
Qed.

Lemma Qsum_zero {A} (f : A -> Q) (l : list A) :
  (forall a, In a l -> 0 <= f a) -> Qsum (map f l) == 0 ->
  forall a, In a l -> f a == 0.
Proof.
  induction l as [|x l IH]; intros H E a Ha; [destruct Ha|].
  cbn in E.
  assert (0 <= f x) by (apply H; left; reflexivity).
  assert (0 <= Qsum (map f l)) by (apply Qsum_nonneg; intros b Hb; apply H; right; exact Hb).
  unfold Qsum in *.
  destruct Ha as [->|Ha]; [lra|].
  apply IH; [intros b Hb; apply H; right; exact Hb|lra|exact Ha].
Qed.

Lemma complete_pairs_swap (x y : list (option Q)) :
  complete_pairs y x = map swap (complete_pairs x y).
Proof.
  revert y. induction x as [|[a|] x IH]; intros [|[b|] y]; cbn; try reflexivity;
    try (rewrite IH; reflexivity).
Qed.

(** *** The range of float64 *)

Lemma Qltb_proper (a a' b b' : Q) : a == a' -> b == b' -> Qltb a b = Qltb a' b'.
Proof.
  intros Ea Eb. unfold Qltb. f_equal.
  destruct (Qle_bool b' a') eqn:E.
  - apply Qle_bool_iff. apply Qle_bool_iff in E. rewrite Ea, Eb. exact E.
  - destruct (Qle_bool b a) eqn:E'; [|reflexivity].
    apply Qle_bool_iff in E'. rewrite Ea, Eb in E'. apply Qle_bool_iff in E'. congruence.
Qed.

Lemma overflows_proper (a b : Q) : a == b -> overflows a = overflows b.
Proof.
  intros E. unfold overflows. apply Qltb_proper; [reflexivity|]. rewrite E. reflexivity.
Qed.

Lemma vanishes_proper (a b : Q) : a == b -> vanishes a = vanishes b.
Proof.
  intros E. unfold vanishes. apply Qltb_proper; [|reflexivity]. rewrite E. reflexivity.
Qed.







Lemma vanishes_zero (q : Q) : q == 0 -> vanishes q = true.
Proof.
  intros E. rewrite (vanishes_proper q 0 E). reflexivity.
Qed.

Lemma vanishes_false_nonzero (q : Q) : vanishes q = false -> ~ q == 0.
Proof.
  intros H E. rewrite (vanishes_zero q E) in H. discriminate H.
Qed.


(** *** The value of a correlation *)

Lemma correlation_value_proper (c c' x x' y y' : Q) :
  c == c' -> x == x' -> y == y' ->
  correlation_value c x y = correlation_value c' x' y'.
Proof.
  intros Ec Ex Ey. unfold correlation_value.
  assert (Exy : x * y == x' * y') by (rewrite Ex, Ey; reflexivity).
  rewrite (overflows_proper x x' Ex), (overflows_proper y y' Ey),
    (vanishes_proper x x' Ex), (vanishes_proper y y' Ey), (overflows_proper c c' Ec),
    (overflows_proper _ _ Exy), (vanishes_proper _ _ Exy),
    (Qred_complete _ _ Ec), (Qred_complete _ _ Exy).
  reflexivity.
Qed.

Lemma correlation_value_sym (c x y : Q) :
  correlation_value c x y = correlation_value c y x.
Proof.
  unfold correlation_value.
  assert (E : y * x == x * y) by ring.
  rewrite (orb_comm (overflows y)), (orb_comm (vanishes y)),
    (overflows_proper _ _ E), (vanishes_proper _ _ E), (Qred_complete _ _ E).
  reflexivity.
Qed.

Lemma Qsquare_nonneg (q : Q) : 0 <= q * q.
Proof.
  destruct (Qlt_le_dec q 0) as [H|H].
  - assert (E : q * q == (- q) * (- q)) by ring. rewrite E.
    apply Qmult_le_0_compat; lra.
  - apply Qmult_le_0_compat; exact H.
Qed.




Lemma pearson_pairs_nonempty (ps : list (Q * Q)) :
  ps <> [] ->
  pearson_pairs ps
  = let mx := Qsum (map fst ps) / Qlen ps in
    let my := Qsum (map snd ps) / Qlen ps in
    correlation_value
      (Qsum (map (fun p => (fst p - mx) * (snd p - my)) ps))
      (Qsum (map (fun p => (fst p - mx) * (fst p - mx)) ps))
      (Qsum (map (fun p => (snd p - my) * (snd p - my)) ps)).
Proof.
  destruct ps as [|p ps]; [congruence|]. intros _.
  unfold pearson_pairs, codeviation. rewrite !List.map_map. reflexivity.
Qed.

Lemma pearson_pairs_swap (ps : list (Q * Q)) :
  pearson_pairs (map swap ps) = pearson_pairs ps.
Proof.
  destruct ps as [|p ps]; [reflexivity|].
  set (l := p :: ps).
  rewrite (pearson_pairs_nonempty l), (pearson_pairs_nonempty (map swap l)) by discriminate.
  cbv zeta.
  assert (Hn : Qlen (map swap l) = Qlen l) by (unfold Qlen; rewrite length_map; reflexivity).
  rewrite !List.map_map, Hn. cbn [fst snd swap].
  rewrite correlation_value_sym. apply correlation_value_proper; [|reflexivity..].
  apply Qsum_ext. intros a _.
  change (map (fun x : Q * Q => snd x) l) with (map snd l).
  change (map (fun x : Q * Q => fst x) l) with (map fst l).
  generalize (Qsum (map fst l) / Qlen l) (Qsum (map snd l) / Qlen l). intros; ring.
Qed.

(** The correlation of two columns does not depend on their order. *)
Lemma pearson_sym (x y : list (option Q)) : pearson x y = pearson y x.
Proof.
  unfold pearson. rewrite (complete_pairs_swap x y), pearson_pairs_swap. reflexivity.
Qed.

(** *** The diagonal *)









(** *** The matrix *)

Lemma rmap_lookup {A B} (f : A -> res B) (l : list A) (l' : list B) :
  rmap f l = ok l' ->
  length l' = length l
  /\ forall i a, l !! i = Some a -> exists b, l' !! i = Some b /\ f a = ok b.
Proof.
  revert l'. induction l as [|x l IH]; intros l' H; cbn in H.
  - injection H as <-. split; [reflexivity|]. intros i a Hi. destruct i; discriminate Hi.
  - destruct (f x) as [e|b] eqn:Ex; cbn in H; [discriminate|].
    destruct (rmap f l) as [e|bs] eqn:El; cbn in H; [discriminate|].
    injection H as <-. destruct (IH bs eq_refl) as [Hlen Hlk].
    split; [cbn; congruence|].
    intros [|i] a Hi; cbn in Hi |- *.
    + injection Hi as <-. exists b. split; [reflexivity|exact Ex].
    + apply Hlk. exact Hi.
Qed.

Lemma rmap_length {A B} (f : A -> res B) (l : list A) (l' : list B) :
  rmap f l = ok l' -> length l' = length l.
Proof. intros H. apply (rmap_lookup f l l' H). Qed.

Lemma select_lookup (d sel : DataFrame) (features : list string) (i : nat) (name : string) :
  select d features = ok sel -> features !! i = Some name ->
  exists col, getcol d name = ok col /\ columns sel !! i = Some (name, col).
Proof.
  unfold select. intros H Hi.
  destruct (rmap _ features) as [e|cols] eqn:E; cbn in H; [discriminate|].
  injection H as <-. cbn.
  destruct (rmap_lookup _ _ _ E) as [_ Hlk].
  destruct (Hlk i name Hi) as (b & Hb & Hf).
  destruct (getcol d name) as [e|col]; cbn in Hf; [discriminate|].
  injection Hf as <-. exists col. split; [reflexivity|exact Hb].
Qed.

Lemma iloc_corr_of (cols : list (list (option Q))) (i j : nat) (v : number) :
  iloc (corr_of cols) i j = ok v <->
  (i < length cols)%nat /\ (j < length cols)%nat /\ v = corr_entry cols i j.
Proof.
  unfold iloc, corr_of. rewrite lookup_map.
  destruct (decide (i < length cols)%nat) as [Hi|Hi].
  - rewrite (lookup_seq_lt 0 _ i Hi). cbn [fmap option_fmap option_map].
    rewrite lookup_map.
    destruct (decide (j < length cols)%nat) as [Hj|Hj].
    + rewrite (lookup_seq_lt 0 _ j Hj). cbn. split.
      * intros [= <-]. auto.
      * intros (_ & _ & ->). reflexivity.
    + rewrite (lookup_seq_ge 0 _ j) by lia. cbn. split; [discriminate|].
      intros (_ & H & _). contradiction.
  - rewrite (lookup_seq_ge 0 _ i) by lia. cbn. split; [discriminate|].
    intros (H & _). contradiction.
Qed.


Lemma corr_entry_pearson (cols : list (list (option Q))) (i j : nat) (x y : list (option Q)) :
  cols !! i = Some x -> cols !! j = Some y -> corr_entry cols i j = pearson x y.
Proof.
  intros Hx Hy. unfold corr_entry.
  destruct (Nat.max_spec i j) as [[Hlt ->]|[Hle ->]].
  - rewrite Nat.min_l by lia. rewrite Hx, Hy. apply pearson_sym.
  - rewrite Nat.min_r by lia. rewrite Hx, Hy. reflexivity.
Qed.

(** What a successful [correlation_matrix] has computed. *)
Lemma correlation_matrix_inv (d : DataFrame) (features : list string)
    (labels : list string) (m : list (list number)) :
  call (correlation_matrix features) d = (ok tt, [Show (FigHeatmap labels m)]) ->
  exists sel cols,
    select d features = ok sel
    /\ rmap (fun c => as_floats (cells (snd c))) (columns sel) = ok cols
    /\ m = corr_of cols.
Proof.
  unfold call, correlation_matrix, bind, lift, deref, emit, corr. cbn.
  destruct (select d features) as [e|sel]; cbn; [discriminate|].
  destruct (rmap _ (columns sel)) as [e|cols] eqn:Ec; cbn; [discriminate|].
  unfold sns_heatmap. destruct (corr_of cols) as [|r rs] eqn:E; cbn; [discriminate|].
  intros H. injection H as _ Hm. exists sel, cols.
  split; [reflexivity|]. split; [exact Ec|congruence].
Qed.

(** What [correlation_coef] does. *)
Lemma correlation_coef_run (d : DataFrame) (a b : string) :
  call (correlation_coef a b) d
  = match getcol d a with
    | inl e => (inl e, [])
    | inr ca =>
        match getcol d b with
        | inl e => (inl e, [])
        | inr cb =>
            match as_floats (cells ca) with
            | inl e => (inl e, [])
            | inr xa =>
                match as_floats (cells cb) with
                | inl e => (inl e, [])
                | inr xb => (ok tt, [Print (LCorrelation a b (pearson xb xa))])
                end
            end
        end
    end.
Proof.
  unfold call, correlation_coef, bind, lift, deref, emit, corr, select. cbn.
  destruct (getcol d a) as [e|ca]; cbn; [reflexivity|].
  destruct (getcol d b) as [e|cb]; cbn; [reflexivity|].
  destruct (as_floats (cells ca)) as [e|xa]; cbn; [reflexivity|].
  destruct (as_floats (cells cb)) as [e|xb]; cbn; reflexivity.
Qed.

(** Columns that convert to float64 can be selected and correlated. *)
Lemma select_numeric (d : DataFrame) (features : list string) :
  (forall f, In f features ->
             exists col xs, getcol d f = ok col /\ as_floats (cells col) = ok xs) ->
  exists sel cols,
    select d features = ok sel
    /\ rmap (fun c => as_floats (cells (snd c))) (columns sel) = ok cols
    /\ length cols = length features.
Proof.
  intros H. unfold select.
  assert (Hr : exists cs cols,
             rmap (fun n => s <-? getcol d n; ok (n, s)) features = ok cs
             /\ rmap (fun c : string * Series => as_floats (cells (snd c))) cs = ok cols
             /\ length cols = length features).
  { induction features as [|f features IH].
    - exists [], []. repeat split.
    - destruct (H f) as (col & xs & Hcol & Hxs); [left; reflexivity|].
      destruct IH as (cs & cols & E1 & E2 & E3); [intros g Hg; apply H; right; exact Hg|].
      exists ((f, col) :: cs), (xs :: cols). cbn [rmap]. rewrite Hcol. cbn [rbind ok].
      rewrite E1. cbn [rbind ok snd]. rewrite Hxs. cbn [rbind ok]. rewrite E2.
      repeat split. cbn [length]. rewrite E3. reflexivity. }
  destruct Hr as (cs & cols & E1 & E2 & E3).
  exists (mkFrame cs), cols. rewrite E1. repeat split; assumption.
Qed.

(** On such columns, at least one, [correlation_matrix] shows the matrix of
    their correlations. *)
Lemma correlation_matrix_numeric (d : DataFrame) (features : list string) :
  features <> [] ->
  (forall f, In f features ->
             exists col xs, getcol d f = ok col /\ as_floats (cells col) = ok xs) ->
  exists sel cols,
    select d features = ok sel
    /\ rmap (fun c => as_floats (cells (snd c))) (columns sel) = ok cols
    /\ length cols = length features
    /\ call (correlation_matrix features) d
       = (ok tt, [Show (FigHeatmap features (corr_of cols))]).
Proof.
  intros Hne H. destruct (select_numeric d features H) as (sel & cols & Hsel & Hcols & Hlen).
  exists sel, cols. split; [exact Hsel|]. split; [exact Hcols|]. split; [exact Hlen|].
  unfold call, correlation_matrix, bind, lift, deref, emit, corr. cbn.
  rewrite Hsel. cbn. rewrite Hcols. cbn.
  destruct cols as [|c cols]; [destruct features; [congruence|discriminate Hlen]|].
  reflexivity.
Qed.

(** C6: the correlation printed by [correlation_coef a b] is the one
    printed by [correlation_coef b a] (in exact arithmetic, NaN included;
    nothing is printed by either when a column is missing or not numeric).
    When [a] and [b] are among a list of numeric features, both calls print
    a value, [correlation_matrix] shows a matrix for that list, and the
    value printed is the entry of the matrix at the positions of [a] and
    [b], in either order. *)
Theorem C6_correlation_symmetric (d : DataFrame) (a b : string) :
  printed_correlation (call (correlation_coef a b) d)
  = printed_correlation (call (correlation_coef b a) d)
  /\ forall (features : list string) (i j : nat),
       (forall f, In f features ->
                  exists col xs, getcol d f = ok col /\ as_floats (cells col) = ok xs) ->
       features !! i = Some a -> features !! j = Some b ->
       exists v m,
         call (correlation_coef a b) d = (ok tt, [Print (LCorrelation a b v)])
         /\ call (correlation_coef b a) d = (ok tt, [Print (LCorrelation b a v)])
         /\ call (correlation_matrix features) d = (ok tt, [Show (FigHeatmap features m)])
         /\ iloc m i j = ok v
         /\ iloc m j i = ok v.
Proof.
  split.
  - rewrite !correlation_coef_run.
    destruct (getcol d a) as [e|ca], (getcol d b) as [e'|cb]; try reflexivity.
    destruct (as_floats (cells ca)) as [e|xa], (as_floats (cells cb)) as [e'|xb];
      try reflexivity.
    unfold printed_correlation. cbn. rewrite pearson_sym. reflexivity.
  - intros features i j Hnum Hi Hj.
    assert (Hne : features <> []) by (intros E; rewrite E in Hi; discriminate Hi).
    destruct (correlation_matrix_numeric d features Hne Hnum)
      as (sel & cols & Hsel & Hcols & Hlen & Hrun).
    destruct (select_lookup _ _ _ _ _ Hsel Hi) as (ca & Ha & Hca).
    destruct (select_lookup _ _ _ _ _ Hsel Hj) as (cb & Hb & Hcb).
    destruct (rmap_lookup _ _ _ Hcols) as [_ Hlk].
    destruct (Hlk _ _ Hca) as (xa & Hxa & Exa).
    destruct (Hlk _ _ Hcb) as (xb & Hxb & Exb).
    cbn in Exa, Exb.
    pose proof (lookup_lt_Some _ _ _ Hxa) as Hia.
    pose proof (lookup_lt_Some _ _ _ Hxb) as Hjb.
    exists (pearson xb xa), (corr_of cols).
    split; [|split; [|split; [exact Hrun|split]]].
    + rewrite correlation_coef_run, Ha, Hb. cbv beta iota delta [ok].
      rewrite Exa, Exb. reflexivity.
    + rewrite correlation_coef_run, Ha, Hb. cbv beta iota delta [ok].
      rewrite Exa, Exb. cbv beta iota delta [ok]. rewrite (pearson_sym xa xb). reflexivity.
    + apply iloc_corr_of. split; [exact Hia|]. split; [exact Hjb|].
      rewrite (corr_entry_pearson cols i j xa xb Hxa Hxb). apply pearson_sym.
    + apply iloc_corr_of. split; [exact Hjb|]. split; [exact Hia|].
      rewrite (corr_entry_pearson cols j i xb xa Hxb Hxa). reflexivity.
Qed.

Lemma C6_correlation_symmetric_witness :
  exists v m,
    call (correlation_coef "Food" "Staff") df_ratings
    = (ok tt, [Print (LCorrelation "Food" "Staff" v)])
    /\ call (correlation_coef "Staff" "Food") df_ratings
       = (ok tt, [Print (LCorrelation "Staff" "Food" v)])
    /\ call (correlation_matrix ["Food"; "Staff"]%string) df_ratings
       = (ok tt, [Show (FigHeatmap ["Food"; "Staff"]%string m)])
    /\ iloc m 0 1 = ok v
    /\ iloc m 1 0 = ok v.
Proof.
  refine (proj2 (C6_correlation_symmetric df_ratings "Food" "Staff")
            ["Food"; "Staff"]%string 0%nat 1%nat _ _ _).
  - intros f [<-|[<-|[]]]; eexists; eexists; split; reflexivity.
  - reflexivity.
  - reflexivity.
Defined.




(** ** [normality_check] *)

Lemma rmap_error {A B} (f : A -> res B) (l : list A) (e : exn) :
  rmap f l = inl e -> exists a, In a l /\ f a = inl e.
Proof.
  induction l as [|x l IH]; cbn; [discriminate|].
  destruct (f x) as [e'|b] eqn:Ex; cbn.
  - intros [= ->]. exists x. split; [left; reflexivity|exact Ex].
  - destruct (rmap f l) as [e'|bs]; cbn; [|discriminate].
    intros [= ->]. destruct (IH eq_refl) as (a & Ha & Ea).
    exists a. split; [right; exact Ha|exact Ea].
Qed.

Lemma as_floats_error (l : list cell) (e : exn) :
  as_floats l = inl e -> ~ is_index_error e.
Proof.
  intros H. apply rmap_error in H as (c & _ & Hc).
  destruct c; try discriminate Hc. injection Hc as <-. intros [].
Qed.

Lemma getcol_error (d : DataFrame) (name : string) (e : exn) :
  getcol d name = inl e -> ~ is_index_error e.
Proof.
  unfold getcol. destruct (assoc name (columns d)); [discriminate|].
  intros [= <-]. intros [].
Qed.

Lemma group_series_error (d : DataFrame) (splitter feature : string) (split : cell) (e : exn) :
  group_series d splitter feature split = inl e -> ~ is_index_error e.
Proof.
  unfold group_series, where_eq.
  destruct (getcol d splitter) as [e'|ks] eqn:E; cbn.
  - intros [= <-]. eapply getcol_error, E.
  - apply getcol_error.
Qed.

Lemma stats_shapiro_error (x : Series) (e : exn) :
  stats_shapiro x = inl e -> ~ is_index_error e.
Proof.
  unfold stats_shapiro. destruct (as_floats (cells x)) as [e'|xs] eqn:E; cbn.
  - intros [= <-]. eapply as_floats_error, E.
  - destruct (Nat.leb _ _); [intros [= <-]; intros []|].
    destruct (all_present xs); discriminate.
Qed.

Lemma stats_probplot_error (x : Series) (ax : panel) (e : exn) :
  stats_probplot x ax = inl e -> ~ is_index_error e.
Proof.
  unfold stats_probplot. destruct (as_floats (cells x)) as [e'|xs] eqn:E; cbn.
  - intros [= <-]. eapply as_floats_error, E.
  - destruct xs; discriminate.
Qed.

Lemma stats_probplot_ok (x : Series) (ax : panel) (sh : number * number) :
  stats_shapiro x = ok sh -> exists ax', stats_probplot x ax = ok ax'.
Proof.
  unfold stats_shapiro, stats_probplot.
  destruct (as_floats (cells x)) as [e|xs]; cbn; [discriminate|].
  intros _. destruct xs; eauto.
Qed.

(** One iteration of the loop, in a world where [df] refers to [d]. *)
Lemma normality_step_run (splitter feature : string) (df : ref) (d : DataFrame)
    (axes : list panel) (i : nat) (split : cell) (w : World) :
  frames w !! df = Some d ->
  normality_step splitter feature df axes (i, split) w
  = match group_series d splitter feature split with
    | inl e => (inl e, w)
    | inr x =>
        match stats_shapiro x with
        | inl e => (inl e, w)
        | inr sh =>
            let w1 := mkWorld (frames w)
                              (out w ++ [Print (LShapiro feature split (fst sh) (snd sh))]) in
            match axes !! i with
            | None => (fail (IndexError i (length axes)), w1)
            | Some ax =>
                match stats_probplot x ax with
                | inl e => (inl e, w1)
                | inr ax' => (ok (<[i := set_title ax' split]> (<[i := ax']> axes)), w1)
                end
            end
        end
    end.
Proof.
  intros Hd. unfold normality_step, group_feature, bind, lift, deref, emit, getitem, ret.
  cbn. rewrite Hd. cbn.
  destruct (group_series d splitter feature split) as [e|x]; cbn; [reflexivity|].
  destruct (stats_shapiro x) as [e|sh]; cbn; [reflexivity|].
  rewrite ?Hd. cbn.
  destruct (axes !! i) as [ax|] eqn:Ei; cbn; [|reflexivity].
  destruct (stats_probplot x ax) as [e|ax']; cbn; [reflexivity|].
  rewrite list_lookup_insert_eq by (eapply lookup_lt_Some; exact Ei).
  reflexivity.
Qed.

(** With room for every remaining group the loop raises no [IndexError]. *)
Lemma normality_loop_in_range (splitter feature : string) (df : ref) (d : DataFrame)
    (l : list cell) (a : nat) (axes : list panel) (w : World) :
  frames w !! df = Some d ->
  (a + length l <= length axes)%nat ->
  match fst (foldM (normality_step splitter feature df) axes
                   (combine (seq a (length l)) l) w) with
  | inl e => ~ is_index_error e
  | inr _ => True
  end.
Proof.
  revert a axes w. induction l as [|split l IH]; intros a axes w Hd Hlen; [exact I|].
  cbn [length seq combine foldM]. unfold bind.
  rewrite (normality_step_run _ _ _ d _ _ _ _ Hd).
  destruct (group_series d splitter feature split) as [e|x] eqn:Eg; cbn [fst].
  { eapply group_series_error, Eg. }
  destruct (stats_shapiro x) as [e|sh] eqn:Es; cbn [fst].
  { eapply stats_shapiro_error, Es. }
  cbv zeta.
  destruct (axes !! a) as [ax|] eqn:Ea.
  2:{ apply lookup_ge_None in Ea. cbn [length] in Hlen. lia. }
  destruct (stats_probplot x ax) as [e|ax'] eqn:Ep; cbn [fst].
  { eapply stats_probplot_error, Ep. }
  apply IH; [exact Hd|].
  rewrite !length_insert. cbn [length] in Hlen. lia.
Qed.

(** Past the capacity the loop raises [IndexError], after one printed line
    for each group reached. *)
Lemma normality_loop_overflow (splitter feature : string) (df : ref) (d : DataFrame)
    (cap : nat) (l : list cell) (a : nat) (axes : list panel) (w : World) :
  frames w !! df = Some d ->
  length axes = cap -> (a <= cap)%nat -> (cap < a + length l)%nat ->
  (forall split, In split (take (S cap - a) l) ->
                 exists x sh, group_series d splitter feature split = ok x
                              /\ stats_shapiro x = ok sh) ->
  exists w',
    foldM (normality_step splitter feature df) axes (combine (seq a (length l)) l) w
    = (fail (IndexError cap cap), w')
    /\ length (out w') = (length (out w) + (S cap - a))%nat.
Proof.
  revert a axes w. induction l as [|split l IH]; intros a axes w Hd Hax Ha Hl Hgood.
  { cbn in Hl. lia. }
  cbn [length seq combine foldM]. unfold bind.
  rewrite (normality_step_run _ _ _ d _ _ _ _ Hd).
  destruct (Hgood split) as (x & sh & Ex & Esh).
  { replace (S cap - a)%nat with (S (cap - a)) by lia. left. reflexivity. }
  rewrite Ex. cbv beta iota delta [ok]. rewrite Esh. cbv beta iota zeta delta [ok].
  destruct (axes !! a) as [ax|] eqn:Ea.
  - pose proof (lookup_lt_Some _ _ _ Ea) as Hlt.
    destruct (stats_probplot_ok x ax sh Esh) as (ax' & Ep). rewrite Ep.
    cbv beta iota delta [ok].
    edestruct (IH (S a)) as (w' & Hrun & Hout); cycle -1.
    + exists w'. split; [exact Hrun|]. rewrite Hout. cbn [out].
      rewrite length_app. cbn [length]. lia.
    + exact Hd.
    + rewrite !length_insert. exact Hax.
    + lia.
    + cbn [length] in Hl. lia.
    + intros s Hs. apply Hgood.
      replace (S cap - a)%nat with (S (S cap - S a)) by lia. right. exact Hs.
  - apply lookup_ge_None in Ea. assert (a = cap) by lia. subst a.
    eexists. split; [rewrite Hax; reflexivity|].
    cbn [out]. rewrite length_app. cbn [length]. lia.
Qed.

(** The list [axes] after line 38. *)
Lemma plt_subplots_length (ver hor : Z) (ax : axes_obj) :
  plt_subplots ver hor = ok ax ->
  (0 < ver)%Z /\ (0 < hor)%Z
  /\ length (match ax with AxesArray l => l | OneAxes p => [p] end) = Z.to_nat (ver * hor).
Proof.
  unfold plt_subplots.
  destruct (Z.leb_spec ver 0); [discriminate|].
  destruct (Z.leb_spec hor 0); [discriminate|].
  destruct (Z.eqb_spec (ver * hor) 1) as [E|E]; intros [= <-].
  - rewrite E. auto.
  - rewrite length_replicate. auto.
Qed.

Lemma plt_subplots_positive (ver hor : Z) :
  (0 < ver)%Z -> (0 < hor)%Z -> exists ax, plt_subplots ver hor = ok ax.
Proof.
  intros Hv Hh. unfold plt_subplots.
  destruct (Z.leb_spec ver 0); [lia|]. destruct (Z.leb_spec hor 0); [lia|].
  destruct (ver * hor =? 1)%Z; eauto.
Qed.

(** What [normality_check] does: the grid, the column, the loop and the
    figure. *)
Lemma normality_check_run (ver hor : Z) (splitter feature : string) (d : DataFrame) :
  call (normality_check ver hor splitter feature) d
  = match plt_subplots ver hor with
    | inl e => (inl e, [])
    | inr ax =>
        match getcol d splitter with
        | inl e => (inl e, [])
        | inr col =>
            let r := foldM (normality_step splitter feature 0%nat)
                           (match ax with AxesArray l => l | OneAxes p => [p] end)
                           (enumerate (unique (cells col))) (mkWorld [d] []) in
            match fst r with
            | inl e => (inl e, out (snd r))
            | inr axes => (ok tt, out (snd r) ++ [Show (FigQQ axes)])
            end
        end
    end.
Proof.
  unfold call, normality_check, bind, lift, deref, emit.
  destruct (plt_subplots ver hor) as [e|ax]; [reflexivity|].
  cbn.
  destruct (getcol d splitter) as [e|col]; [reflexivity|].
  cbn.
  destruct (foldM _ _ _ _) as [[e|axes] w']; reflexivity.
Qed.

(** C8 (amended): if the grid has at least as many cells as the grouping
    column has distinct values, no subplot access of [normality_check] is
    out of range; if the grid has a positive number of rows and of columns,
    fewer cells than there are groups, and the Shapiro-Wilk test succeeds on
    each of the first [ver_plots * hor_plots + 1] groups, the routine fails
    with an out-of-range access at index [ver_plots * hor_plots], after
    printing the test of these groups. *)
Theorem C8_grid_capacity
    (ver_plots hor_plots : Z) (splitter feature : string) (d : DataFrame) :
  ((Z.of_nat (n_groups d splitter) <= ver_plots * hor_plots)%Z ->
   match fst (call (normality_check ver_plots hor_plots splitter feature) d) with
   | inl e => ~ is_index_error e
   | inr _ => True
   end)
  /\ ((0 < ver_plots)%Z -> (0 < hor_plots)%Z ->
      (ver_plots * hor_plots < Z.of_nat (n_groups d splitter))%Z ->
      (forall split,
          In split (take (S (Z.to_nat (ver_plots * hor_plots))) (groups_of d splitter)) ->
          exists x sh, group_series d splitter feature split = ok x
                       /\ stats_shapiro x = ok sh) ->
      exists evs,
        call (normality_check ver_plots hor_plots splitter feature) d
        = (fail (IndexError (Z.to_nat (ver_plots * hor_plots))
                            (Z.to_nat (ver_plots * hor_plots))), evs)
        /\ length evs = S (Z.to_nat (ver_plots * hor_plots))).
Proof.
  rewrite normality_check_run. unfold n_groups, groups_of. split.
  - intros Hcap.
    destruct (plt_subplots ver_plots hor_plots) as [e|ax] eqn:Eax.
    { unfold plt_subplots in Eax.
      destruct (_ <=? _)%Z; [injection Eax as <-; intros []|].
      destruct (_ <=? _)%Z; [injection Eax as <-; intros []|].
      destruct (_ =? _)%Z; discriminate. }
    destruct (plt_subplots_length _ _ _ Eax) as (_ & _ & Hlen).
    destruct (getcol d splitter) as [e|col] eqn:Ecol; [eapply getcol_error, Ecol|].
    cbv zeta.
    pose proof (normality_loop_in_range splitter feature 0%nat d (unique (cells col)) 0%nat
                  (match ax with AxesArray l => l | OneAxes p => [p] end)
                  (mkWorld [d] []) eq_refl) as Hloop.
    unfold enumerate.
    destruct (foldM _ _ _ _) as [[e|axes] w']; cbn [fst] in *; [|exact I].
    apply Hloop. rewrite Hlen. lia.
  - intros Hv Hh Hcap Hgood.
    destruct (plt_subplots_positive _ _ Hv Hh) as (ax & Eax). rewrite Eax.
    destruct (plt_subplots_length _ _ _ Eax) as (_ & _ & Hlen).
    destruct (getcol d splitter) as [e|col] eqn:Ecol; [cbn in Hcap; lia|].
    cbv zeta. unfold enumerate.
    destruct (normality_loop_overflow splitter feature 0%nat d
                (Z.to_nat (ver_plots * hor_plots)) (unique (cells col)) 0%nat
                (match ax with AxesArray l => l | OneAxes p => [p] end)
                (mkWorld [d] []) eq_refl Hlen) as (w' & Hrun & Hout).
    + lia.
    + lia.
    + rewrite Nat.sub_0_r. exact Hgood.
    + cbv beta iota delta [ok]. rewrite Hrun. cbn [fst snd]. eexists. split; [reflexivity|].
      rewrite Hout. cbn. lia.
Qed.

Lemma C8_grid_capacity_witness :
  (match fst (call (normality_check 1 2 "Class" "Food") df_ratings) with
   | inl e => ~ is_index_error e
   | inr _ => True
   end)
  /\ exists evs,
       call (normality_check 1 1 "Class" "Food") df_ratings = (fail (IndexError 1 1), evs)
       /\ length evs = 2%nat.
Proof.
  split.
  - apply (proj1 (C8_grid_capacity 1 2 "Class" "Food" df_ratings)).
    vm_compute. discriminate.
  - apply (proj2 (C8_grid_capacity 1 1 "Class" "Food" df_ratings)).
    + reflexivity.
    + reflexivity.
    + reflexivity.
    + intros split Hs. cbn in Hs.
      destruct Hs as [<-|[<-|[]]]; eexists; eexists; split; vm_compute; reflexivity.
Defined.

(** C8 (as stated): with more groups than cells the routine need not fail
    with an out-of-range access. A grid without columns is refused by
    [plt.subplots], and a text column is refused by the Shapiro-Wilk test,
    both before any subplot is accessed. *)
Lemma C8_counterexample :
  (1 * 0 < Z.of_nat (n_groups df_one_group "Class"))%Z
  /\ call (normality_check 1 0 "Class" "Overall Rating") df_one_group
     = (fail (ValueError "Number of columns must be a positive integer"), [])
  /\ (1 * 1 < Z.of_nat (n_groups df_text_ratings "Class"))%Z
  /\ exists e, call (normality_check 1 1 "Class" "Overall Rating") df_text_ratings
               = (fail e, [])
               /\ ~ is_index_error e.
Proof.
  split; [vm_compute; reflexivity|]. split; [vm_compute; reflexivity|].
  split; [vm_compute; reflexivity|].
  eexists. split; [vm_compute; reflexivity|]. intros [].
Qed.

(** ** [kruskal] *)

Lemma bind_lift {A B} (r : res A) (k : A -> M B) (w : World) :
  bind (lift r) k w = match r with inl e => (inl e, w) | inr a => k a w end.
Proof. unfold bind, lift. destruct r; reflexivity. Qed.

Lemma bind_deref {B} (df : ref) (d : DataFrame) (k : DataFrame -> M B) (w : World) :
  frames w !! df = Some d -> bind (deref df) k w = k d w.
Proof. intros H. unfold bind, deref. rewrite H. reflexivity. Qed.

Lemma mapM_group_feature (df : ref) (d : DataFrame) (splitter feature : string)
    (l : list cell) (w : World) :
  frames w !! df = Some d ->
  mapM (group_feature df splitter feature) l w
  = (rmap (group_series d splitter feature) l, w).
Proof.
  intros Hd. induction l as [|k l IH]; [reflexivity|].
  cbn [mapM rmap]. unfold group_feature at 1.
  unfold bind at 1. rewrite (bind_deref df d) by exact Hd.
  unfold lift at 1.
  destruct (group_series d splitter feature k) as [e|s]; [reflexivity|].
  unfold bind at 1. rewrite IH.
  destruct (rmap _ l); reflexivity.
Qed.

(** What [kruskal] does. *)
Lemma kruskal_run_in (scipy : scipy_release) (splitter feature : string) (df : ref)
    (d : DataFrame) (w : World) :
  frames w !! df = Some d ->
  kruskal scipy splitter feature df w
  = match getcol d splitter with
    | inl e => (inl e, w)
    | inr col =>
        match rmap (group_series d splitter feature) (unique (cells col)) with
        | inl e => (inl e, w)
        | inr samples =>
            match stats_kruskal scipy samples with
            | inl e => (inl e, w)
            | inr r => (ok tt, mkWorld (frames w) (out w ++ [Print (LKruskal (fst r) (snd r))]))
            end
        end
    end.
Proof.
  intros Hd. unfold kruskal.
  rewrite (bind_deref df d) by exact Hd. rewrite bind_lift.
  destruct (getcol d splitter) as [e|col]; [reflexivity|].
  unfold bind at 1.
  rewrite (mapM_group_feature df d) by exact Hd.
  destruct (rmap _ (unique (cells col))) as [e|samples]; [reflexivity|].
  rewrite bind_lift.
  destruct (stats_kruskal scipy samples) as [e|r]; reflexivity.
Qed.

Lemma kruskal_run (scipy : scipy_release) (splitter feature : string) (d : DataFrame) :
  call (kruskal scipy splitter feature) d
  = match getcol d splitter with
    | inl e => (inl e, [])
    | inr col =>
        match rmap (group_series d splitter feature) (unique (cells col)) with
        | inl e => (inl e, [])
        | inr samples =>
            match stats_kruskal scipy samples with
            | inl e => (inl e, [])
            | inr r => (ok tt, [Print (LKruskal (fst r) (snd r))])
            end
        end
    end.
Proof.
  unfold call. rewrite (kruskal_run_in scipy splitter feature 0%nat d) by reflexivity.
  destruct (getcol d splitter) as [e|col]; [reflexivity|].
  destruct (rmap _ (unique (cells col))) as [e|samples]; [reflexivity|].
  destruct (stats_kruskal scipy samples) as [e|r]; reflexivity.
Qed.

Lemma getcol_mask_frame (mask : list bool) (d : DataFrame) (name : string) :
  getcol (mask_frame mask d) name
  = match getcol d name with
    | inl e => inl e
    | inr s => ok (mask_series mask s)
    end.
Proof.
  unfold getcol, mask_frame. destruct d as [cols]. cbn.
  induction cols as [|[n s] cols IH]; cbn; [reflexivity|].
  destruct (String.eqb n name); [reflexivity|exact IH].
Qed.

Lemma group_series_ok (d : DataFrame) (splitter feature : string) (split : cell)
    (ks fs : Series) :
  getcol d splitter = ok ks -> getcol d feature = ok fs ->
  group_series d splitter feature split = ok (mask_series (eq_mask ks split) fs).
Proof.
  intros Hks Hfs. unfold group_series, where_eq. rewrite Hks. cbn.
  rewrite getcol_mask_frame, Hfs. reflexivity.
Qed.

Lemma as_floats_take_mask (mask : list bool) (l : list cell) (xs : list (option Q)) :
  as_floats l = ok xs -> as_floats (take_mask mask l) = ok (take_mask mask xs).
Proof.
  unfold as_floats. revert mask xs.
  induction l as [|c l IH]; intros mask xs H; cbn in H.
  - injection H as <-. destruct mask; reflexivity.
  - destruct (as_float c) as [e|x] eqn:Ec; cbn in H; [discriminate|].
    destruct (rmap as_float l) as [e|xs'] eqn:El; cbn in H; [discriminate|].
    injection H as <-. destruct mask as [|b mask]; [reflexivity|].
    cbn [take_mask]. destruct b.
    + cbn [rmap]. rewrite Ec. cbn. rewrite (IH mask xs' eq_refl). reflexivity.
    + apply IH. reflexivity.
Qed.

(** The samples that [kruskal] passes to the test, and their values. *)
Lemma kruskal_samples (d : DataFrame) (splitter feature : string) (ks fs : Series)
    (xs : list (option Q)) (keys : list cell) :
  getcol d splitter = ok ks -> getcol d feature = ok fs ->
  as_floats (cells fs) = ok xs ->
  exists samples,
    rmap (group_series d splitter feature) keys = ok samples
    /\ rmap (fun s => as_floats (cells s)) samples
       = ok (map (fun k => take_mask (eq_mask ks k) xs) keys).
Proof.
  intros Hks Hfs Hxs. induction keys as [|k keys (samples & E1 & E2)].
  - exists []. split; reflexivity.
  - exists (mask_series (eq_mask ks k) fs :: samples). cbn [rmap map].
    rewrite (group_series_ok d splitter feature k ks fs Hks Hfs), E1.
    split; [reflexivity|].
    cbn. rewrite (as_floats_take_mask _ _ _ Hxs). cbn. rewrite E2. reflexivity.
Qed.

Lemma too_few_enough (scipy : scipy_release) (n : nat) :
  (2 <= n)%nat -> too_few scipy n = None.
Proof. destruct n as [|[|n]]; [lia|lia|]. intros _. destruct scipy; reflexivity. Qed.

Lemma has_empty_numeric (samples : list Series) (groups : list (list (option Q))) :
  rmap (fun s => as_floats (cells s)) samples = ok groups ->
  has_empty samples = existsb (fun g => Nat.eqb (length g) 0) groups.
Proof.
  unfold has_empty. revert groups.
  induction samples as [|x samples IH]; intros groups H; cbn in H.
  - injection H as <-. reflexivity.
  - destruct (as_floats (cells x)) as [e|g] eqn:Eg; cbn in H; [discriminate|].
    destruct (rmap _ samples) as [e|gs] eqn:Egs; cbn in H; [discriminate|].
    injection H as <-. cbn [existsb]. rewrite (IH gs eq_refl).
    rewrite (rmap_length _ _ _ Eg). reflexivity.
Qed.

(** [stats.kruskal] on numeric samples, whose values are [groups]. *)
Lemma stats_kruskal_numeric (scipy : scipy_release) (samples : list Series)
    (groups : list (list (option Q))) :
  rmap (fun s => as_floats (cells s)) samples = ok groups ->
  stats_kruskal scipy samples
  = let nan := existsb (existsb (fun o : option Q =>
                                   match o with None => true | Some _ => false end))
                       groups in
    let empty := existsb (fun g => Nat.eqb (length g) 0) groups in
    if match scipy with SciPy_1_16 => nan || empty | SciPy_1_17 => false end
    then ok (NaN, NaN)
    else match too_few scipy (length groups) with
         | Some e => fail e
         | None =>
             if nan || empty then ok (NaN, NaN)
             else kruskal_test scipy (map dropna groups)
         end.
Proof.
  intros H. unfold stats_kruskal, has_nan, comparable.
  rewrite (has_empty_numeric samples groups H), H, (rmap_length _ _ _ H).
  reflexivity.
Qed.

(** *** The tie correction *)








Lemma take_mask_false {A} (mask : list bool) (l : list A) :
  Forall (fun b => b = false) mask -> take_mask mask l = [].
Proof.
  intros H. revert l. induction H as [|b mask -> _ IH]; intros [|x l]; cbn; auto.
Qed.



Lemma cell_eqb_na (c : cell) : cell_eqb c CNA = false.
Proof. destruct c; reflexivity. Qed.

Lemma key_eqb_na (u : cell) : key_eqb CNA u = true -> u = CNA.
Proof. destruct u; try discriminate. reflexivity. Qed.







(** ** [eda]: the subset and the printed summary *)














(** ** Further properties *)

Lemma series_plot_bar_nonempty (percent : list (cell * option Q)) :
  percent <> [] ->
  series_plot_bar percent = ok (map (fun kv => drawn_height (snd kv)) percent).
Proof. destruct percent; [congruence|reflexivity]. Qed.



(** *** [normality_check]: the figure *)

Lemma stats_shapiro_sample (x : Series) (sh : number * number) (ax : panel) :
  stats_shapiro x = ok sh ->
  exists xs, as_floats (cells x) = ok xs /\ (3 <= length xs)%nat
             /\ stats_probplot x ax = ok (mkPanel (Some xs) (title ax)).
Proof.
  unfold stats_shapiro, stats_probplot.
  destruct (as_floats (cells x)) as [e|xs]; cbn [rbind]; [discriminate|].
  destruct (Nat.ltb_spec (length xs) 3) as [|Hlen]; [discriminate|]. intros _.
  exists xs. split; [reflexivity|]. split; [exact Hlen|].
  destruct xs; [cbn in Hlen; lia|reflexivity].
Qed.

(** The loop on a grid with room for every group, when the test succeeds on
    every group: one line per group, one titled panel per group, the other
    panels untouched. *)
Lemma normality_loop_complete (splitter feature : string) (df : ref) (d : DataFrame)
    (l : list cell) (a : nat) (axes : list panel) (w : World) :
  frames w !! df = Some d ->
  (a + length l <= length axes)%nat ->
  (forall split, In split l ->
                 exists x sh, group_series d splitter feature split = ok x
                              /\ stats_shapiro x = ok sh) ->
  exists axes' lines,
    foldM (normality_step splitter feature df) axes (combine (seq a (length l)) l) w
    = (ok axes', mkWorld (frames w) (out w ++ lines))
    /\ length axes' = length axes
    /\ length lines = length l
    /\ (forall i split, l !! i = Some split ->
          (exists st p, lines !! i = Some (Print (LShapiro feature split st p)))
          /\ exists x xs, group_series d splitter feature split = ok x
                          /\ as_floats (cells x) = ok xs
                          /\ axes' !! (a + i)%nat = Some (mkPanel (Some xs) (Some split)))
    /\ (forall j, (j < a \/ a + length l <= j)%nat -> axes' !! j = axes !! j).
Proof.
  revert a axes w. induction l as [|split l IH]; intros a axes w Hd Hlen Hgood.
  - exists axes, []. cbn. rewrite app_nil_r. destruct w.
    split; [reflexivity|]. split; [reflexivity|]. split; [reflexivity|]. split.
    + intros i split Hi. destruct i; discriminate Hi.
    + reflexivity.
  - cbn [length seq combine foldM]. unfold bind.
    rewrite (normality_step_run _ _ _ d _ _ _ _ Hd).
    destruct (Hgood split) as (x & sh & Ex & Esh); [left; reflexivity|].
    rewrite Ex. cbv beta iota delta [ok]. rewrite Esh. cbv beta iota zeta delta [ok].
    destruct (axes !! a) as [ax|] eqn:Ea.
    2:{ apply lookup_ge_None in Ea. cbn [length] in Hlen. lia. }
    destruct (stats_shapiro_sample x sh ax Esh) as (xs & Exs & _ & Ep).
    rewrite Ep. cbv beta iota delta [ok].
    set (axes1 := <[a := set_title (mkPanel (Some xs) (title ax)) split]>
                    (<[a := mkPanel (Some xs) (title ax)]> axes)).
    set (w1 := mkWorld (frames w) (out w ++ [Print (LShapiro feature split (fst sh) (snd sh))])).
    destruct (IH (S a) axes1 w1) as (axes' & lines & Hrun & Hl1 & Hl2 & Hpos & Hrest).
    { exact Hd. }
    { unfold axes1. rewrite !length_insert. cbn [length] in Hlen. lia. }
    { intros s Hs. apply Hgood. right. exact Hs. }
    exists axes', (Print (LShapiro feature split (fst sh) (snd sh)) :: lines).
    split; [|split; [|split; [|split]]].
    + rewrite Hrun. unfold w1. cbn [frames out]. rewrite <- app_assoc. reflexivity.
    + rewrite Hl1. unfold axes1. rewrite !length_insert. reflexivity.
    + cbn [length]. rewrite Hl2. reflexivity.
    + intros [|i] s Hi.
      * cbn in Hi. injection Hi as <-. split; [eexists; eexists; reflexivity|].
        exists x, xs. split; [exact Ex|]. split; [exact Exs|].
        rewrite Nat.add_0_r, Hrest by lia. unfold axes1.
        rewrite list_lookup_insert_eq; [reflexivity|].
        rewrite length_insert. eapply lookup_lt_Some. exact Ea.
      * cbn in Hi. destruct (Hpos i s Hi) as [Hline Hpanel]. split; [exact Hline|].
        replace (a + S i)%nat with (S a + i)%nat by lia. exact Hpanel.
    + intros j Hj. cbn [length] in Hj. rewrite Hrest by lia. unfold axes1.
      rewrite !list_lookup_insert_ne by lia. reflexivity.
Qed.

(** X2: on a grid with a positive number of rows and columns and at least
    as many cells as there are groups, when the Shapiro-Wilk test succeeds
    on every group, [normality_check] prints one test line per group, in
    the order of first appearance of the groups, and then shows one figure
    of [ver_plots * hor_plots] panels: panel [i] holds the Q-Q plot of the
    sample of group [i] and is titled with that group, and the panels past
    the last group are left empty. *)
Theorem X2_normality_check_figure
    (ver_plots hor_plots : Z) (splitter feature : string) (d : DataFrame) :
  (0 < ver_plots)%Z -> (0 < hor_plots)%Z ->
  (Z.of_nat (n_groups d splitter) <= ver_plots * hor_plots)%Z ->
  (1 <= n_groups d splitter)%nat ->
  (forall split, In split (groups_of d splitter) ->
                 exists x sh, group_series d splitter feature split = ok x
                              /\ stats_shapiro x = ok sh) ->
  exists lines panels,
    call (normality_check ver_plots hor_plots splitter feature) d
    = (ok tt, lines ++ [Show (FigQQ panels)])
    /\ length lines = n_groups d splitter
    /\ length panels = Z.to_nat (ver_plots * hor_plots)
    /\ (forall i split, groups_of d splitter !! i = Some split ->
          (exists st p, lines !! i = Some (Print (LShapiro feature split st p)))
          /\ exists x xs, group_series d splitter feature split = ok x
                          /\ as_floats (cells x) = ok xs
                          /\ panels !! i = Some (mkPanel (Some xs) (Some split)))
    /\ (forall j, (n_groups d splitter <= j < Z.to_nat (ver_plots * hor_plots))%nat ->
                  panels !! j = Some empty_panel).
Proof.
  intros Hv Hh Hcap Hone Hgood.
  rewrite normality_check_run. unfold n_groups, groups_of in *.
  destruct (plt_subplots_positive _ _ Hv Hh) as (ax & Eax). rewrite Eax.
  destruct (plt_subplots_length _ _ _ Eax) as (_ & _ & Hlen).
  destruct (getcol d splitter) as [e|col] eqn:Ecol; [cbn in Hone; lia|].
  cbv beta iota zeta delta [ok]. unfold enumerate.
  set (axes := match ax with AxesArray l => l | OneAxes p => [p] end) in *.
  destruct (normality_loop_complete splitter feature 0%nat d (unique (cells col)) 0%nat
              axes (mkWorld [d] []) eq_refl) as (axes' & lines & Hrun & Hl1 & Hl2 & Hpos & Hrest).
  { rewrite Hlen. lia. }
  { exact Hgood. }
  rewrite Hrun. cbn [fst snd out app].
  exists lines, axes'. split; [reflexivity|]. split; [exact Hl2|].
  split; [rewrite Hl1; exact Hlen|]. split; [exact Hpos|].
  intros j Hj. rewrite Hrest by lia.
  unfold axes. unfold plt_subplots in Eax.
  destruct (_ <=? _)%Z; [discriminate|]. destruct (_ <=? _)%Z; [discriminate|].
  destruct (Z.eqb_spec (ver_plots * hor_plots) 1) as [E|E]; injection Eax as <-.
  - rewrite E in Hj. cbn in Hj. lia.
  - apply lookup_replicate_2. lia.
Qed.

Lemma X2_normality_check_figure_witness :
  exists lines panels,
    call (normality_check 1 3 "Class" "Food") df_ratings
    = (ok tt, lines ++ [Show (FigQQ panels)])
    /\ length lines = 2%nat /\ length panels = 3%nat
    /\ panels !! 2%nat = Some empty_panel.
Proof.
  destruct (X2_normality_check_figure 1 3 "Class" "Food" df_ratings)
    as (lines & panels & H1 & H2 & H3 & _ & H5).
  - reflexivity.
  - reflexivity.
  - vm_compute. discriminate.
  - vm_compute. repeat constructor.
  - intros split Hs. cbn in Hs.
    destruct Hs as [<-|[<-|[]]]; eexists; eexists; split; vm_compute; reflexivity.
  - exists lines, panels. split; [exact H1|]. split; [exact H2|]. split; [exact H3|].
    apply H5. vm_compute. split; repeat constructor.
Defined.

(** *** [kruskal]: missing values and missing columns *)

Lemma unique_na (l : list cell) : In CNA l -> In CNA (unique l).
Proof.
  intros H. destruct (unique_covers l CNA H) as (u & Hu & E).
  apply key_eqb_na in E. subst u. exact Hu.
Qed.

Lemma eq_mask_na (ks : Series) {A} (l : list A) : take_mask (eq_mask ks CNA) l = [].
Proof.
  apply take_mask_false. unfold eq_mask. apply List.Forall_forall.
  intros b Hb. apply in_map_iff in Hb as (c & <- & _). apply cell_eqb_na.
Qed.

(** X3: when the grouping column has a missing value among at least two
    distinct values and the feature column is numeric, [kruskal] prints NaN
    for the statistic and for the p-value: the comparison with a missing
    value selects no row, so the group of the missing value is an empty
    sample. *)
Theorem X3_kruskal_missing_group
    (scipy : scipy_release) (d : DataFrame) (splitter feature : string) (ks fs : Series)
    (xs : list (option Q)) :
  getcol d splitter = ok ks ->
  getcol d feature = ok fs ->
  as_floats (cells fs) = ok xs ->
  In CNA (cells ks) ->
  (2 <= n_groups d splitter)%nat ->
  call (kruskal scipy splitter feature) d = (ok tt, [Print (LKruskal NaN NaN)]).
Proof.
  intros Hks Hfs Hxs Hna Hn.
  unfold n_groups, groups_of in Hn. rewrite Hks in Hn. cbv beta iota delta [ok] in Hn.
  destruct (kruskal_samples d splitter feature ks fs xs (unique (cells ks)) Hks Hfs Hxs)
    as (samples & E1 & E2).
  rewrite kruskal_run, Hks. cbv beta iota delta [ok]. rewrite E1.
  cbv beta iota delta [ok]. rewrite (stats_kruskal_numeric _ samples _ E2).
  cbv zeta. rewrite length_map, (too_few_enough scipy _ Hn).
  assert (Hex : existsb (fun g : list (option Q) => Nat.eqb (length g) 0)
                  (map (fun k => take_mask (eq_mask ks k) xs) (unique (cells ks))) = true).
  { apply existsb_exists. exists []. split; [|reflexivity].
    apply in_map_iff. exists CNA. split; [apply eq_mask_na|apply unique_na; exact Hna]. }
  rewrite Hex, orb_true_r. destruct scipy; reflexivity.
Qed.

Lemma X3_kruskal_missing_group_witness :
  call (kruskal SciPy_1_16 "Class" "Overall Rating")
       (mkFrame [ ("Class"%string, mkSeries Object [CStr "Economy"; CNA; CStr "Economy"]);
                  ("Overall Rating"%string, mkSeries Float64 [CNum 1; CNum 5; CNum 8]) ])
  = (ok tt, [Print (LKruskal NaN NaN)]).
Proof.
  apply (X3_kruskal_missing_group SciPy_1_16 _ "Class" "Overall Rating"
           (mkSeries Object [CStr "Economy"; CNA; CStr "Economy"])
           (mkSeries Float64 [CNum 1; CNum 5; CNum 8])
           [Some 1; Some 5; Some 8]).
  - reflexivity.
  - reflexivity.
  - reflexivity.
  - cbn. tauto.
  - vm_compute. repeat constructor.
Defined.

Lemma group_series_missing_feature (d : DataFrame) (splitter feature : string)
    (split : cell) (ks : Series) (e : exn) :
  getcol d splitter = ok ks -> getcol d feature = inl e ->
  group_series d splitter feature split = fail (KeyError (CStr feature)).
Proof.
  intros Hks Hfs. unfold group_series, where_eq. rewrite Hks. cbn [rbind ok].
  rewrite getcol_mask_frame. unfold getcol in *.
  destruct (assoc feature (columns d)); [discriminate|reflexivity].
Qed.

(** X4: [kruskal] prints nothing when it fails, and what it fails with
    follows the order of its lookups: a missing grouping column gives a
    [KeyError] naming it; a table without rows gives the usage error of the
    test whatever the feature name, because the feature column is only
    looked up once per group; with at least one row, a missing feature
    column gives a [KeyError] naming it. *)
Theorem X4_kruskal_lookup_failures
    (scipy : scipy_release) (d : DataFrame) (splitter feature : string) :
  (forall e, getcol d splitter = inl e ->
             call (kruskal scipy splitter feature) d = (fail (KeyError (CStr splitter)), []))
  /\ (forall ks, getcol d splitter = ok ks -> cells ks = [] ->
                 call (kruskal scipy splitter feature) d
                 = (fail (ValueError "Need at least two groups in stats.kruskal()"), []))
  /\ (forall ks e, getcol d splitter = ok ks -> cells ks <> [] ->
                   getcol d feature = inl e ->
                   call (kruskal scipy splitter feature) d
                   = (fail (KeyError (CStr feature)), [])).
Proof.
  rewrite kruskal_run. split; [|split].
  - intros e He. unfold getcol in *.
    destruct (assoc splitter (columns d)); [discriminate|reflexivity].
  - intros ks Hks Hempty. rewrite Hks. cbv beta iota delta [ok]. rewrite Hempty.
    destruct scipy; reflexivity.
  - intros ks e Hks Hne He. rewrite Hks. cbv beta iota delta [ok].
    destruct (cells ks) as [|c l] eqn:Ec; [congruence|].
    cbn [unique unique_acc existsb rmap].
    rewrite (group_series_missing_feature d splitter feature c ks e Hks He).
    reflexivity.
Qed.

Lemma X4_kruskal_lookup_failures_witness :
  call (kruskal SciPy_1_16 "Cabin" "Food") df_ratings = (fail (KeyError (CStr "Cabin")), [])
  /\ call (kruskal SciPy_1_17 "Class" "Price") (mkFrame [("Class"%string, mkSeries Object [])])
     = (fail (ValueError "Need at least two groups in stats.kruskal()"), [])
  /\ call (kruskal SciPy_1_17 "Class" "Price") df_ratings
     = (fail (KeyError (CStr "Price")), []).
Proof.
  split; [|split].
  - apply (proj1 (X4_kruskal_lookup_failures SciPy_1_16 df_ratings "Cabin" "Food")
             (KeyError (CStr "Cabin"))). reflexivity.
  - apply (proj1 (proj2 (X4_kruskal_lookup_failures SciPy_1_17
                           (mkFrame [("Class"%string, mkSeries Object [])]) "Class" "Price"))
             (mkSeries Object [])); reflexivity.
  - apply (proj2 (proj2 (X4_kruskal_lookup_failures SciPy_1_17 df_ratings "Class" "Price"))
             (mkSeries Object [CStr "A"; CStr "A"; CStr "A"; CStr "B"; CStr "B"; CStr "B"])
             (KeyError (CStr "Price"))).
    + reflexivity.
    + discriminate.
    + reflexivity.
Defined.

(** *** The range of a correlation *)

(** The sum of the squares of [alpha * v - beta * u]. *)
Lemma Qsum_square_combination {T} (u v : T -> Q) (alpha beta : Q) (l : list T) :
  Qsum (map (fun p => (alpha * v p - beta * u p) * (alpha * v p - beta * u p)) l)
  == alpha * alpha * Qsum (map (fun p => v p * v p) l)
     - 2 * alpha * beta * Qsum (map (fun p => u p * v p) l)
     + beta * beta * Qsum (map (fun p => u p * u p) l).
Proof.
  induction l as [|p l IH]; cbn [map Qsum foldr].
  - ring.
  - fold (Qsum (map (fun p => (alpha * v p - beta * u p) * (alpha * v p - beta * u p)) l)).
    fold (Qsum (map (fun p => v p * v p) l)).
    fold (Qsum (map (fun p => u p * v p) l)).
    fold (Qsum (map (fun p => u p * u p) l)).
    rewrite IH. ring.
Qed.

(** The Cauchy-Schwarz inequality on lists. *)
Lemma Qsum_cauchy_schwarz {T} (u v : T -> Q) (l : list T) :
  Qsum (map (fun p => u p * v p) l) * Qsum (map (fun p => u p * v p) l)
  <= Qsum (map (fun p => u p * u p) l) * Qsum (map (fun p => v p * v p) l).
Proof.
  set (A := Qsum (map (fun p => u p * u p) l)).
  set (B := Qsum (map (fun p => u p * v p) l)).
  set (C := Qsum (map (fun p => v p * v p) l)).
  assert (HA : 0 <= A) by (apply Qsum_nonneg; intros; apply Qsquare_nonneg).
  destruct (Qeq_dec A 0) as [E|E].
  - assert (Hu : forall p, In p l -> u p == 0).
    { intros p Hp.
      pose proof (Qsum_zero (fun p => u p * u p) l (fun p _ => Qsquare_nonneg (u p)) E p Hp) as H.
      cbn beta in H. apply Qmult_integral in H. tauto. }
    assert (HB : B == 0).
    { unfold B. rewrite (Qsum_ext _ (fun _ => 0)).
      - clear. induction l as [|a l IH]; cbn; [reflexivity|].
        unfold Qsum in IH. rewrite IH. ring.
      - intros p Hp. rewrite (Hu p Hp). ring. }
    rewrite HB, E. lra.
  - assert (HApos : 0 < A) by (apply Qle_lteq in HA as [H|H]; [exact H|symmetry in H; contradiction]).
    pose proof (Qsum_square_combination u v A B l) as Hid.
    fold A B C in Hid.
    assert (Hnn : 0 <= A * (A * C - B * B)).
    { assert (E' : A * (A * C - B * B) == A * A * C - 2 * A * B * B + B * B * A) by ring.
      rewrite E', <- Hid. apply Qsum_nonneg. intros; apply Qsquare_nonneg. }
    destruct (Qlt_le_dec (A * C - B * B) 0) as [Hneg|Hpos]; [|lra].
    exfalso.
    assert (H : 0 < A * (- (A * C - B * B))) by (apply Qmult_lt_0_compat; lra).
    assert (E' : A * (- (A * C - B * B)) == - (A * (A * C - B * B))) by ring.
    rewrite E' in H. lra.
Qed.

Lemma Rdiv_between (c s : R) :
  (0 < s)%R -> (c * c <= s * s)%R -> (-1 <= c / s <= 1)%R.
Proof.
  intros Hs Hc.
  assert (H1 : (c <= s)%R).
  { destruct (Rle_lt_dec c s) as [H|H]; [exact H|]. exfalso.
    assert (s * s < c * c)%R by (apply Rmult_le_0_lt_compat; Lra.lra). Lra.lra. }
  assert (H2 : (- s <= c)%R).
  { destruct (Rle_lt_dec (- s) c) as [H|H]; [exact H|]. exfalso.
    assert (s * s < (- c) * (- c))%R by (apply Rmult_le_0_lt_compat; Lra.lra).
    assert ((- c) * (- c) = c * c)%R by ring. Lra.lra. }
  assert (Hi : (0 < / s)%R) by (apply Rinv_0_lt_compat; exact Hs).
  assert (E : (s * / s = 1)%R) by (apply Rinv_r; Lra.lra).
  unfold Rdiv.
  assert ((- s) * / s <= c * / s)%R by (apply Rmult_le_compat_r; Lra.lra).
  assert (c * / s <= s * / s)%R by (apply Rmult_le_compat_r; Lra.lra).
  assert ((- s) * / s = - (s * / s))%R by ring.
  Lra.lra.
Qed.

Lemma correlation_value_range (c x y : Q) :
  c * c <= x * y ->
  correlation_value c x y = NaN
  \/ exists r, number_R (correlation_value c x y) = Some r /\ (-1 <= r <= 1)%R.
Proof.
  intros Hcs. unfold correlation_value.
  assert (Hzero : exists r, number_R (Rat 0) = Some r /\ (-1 <= r <= 1)%R).
  { exists (Q2R 0). split; [reflexivity|]. rewrite RMicromega.Q2R_0. Lra.lra. }
  destruct (overflows x || overflows y).
  { destruct (vanishes x || vanishes y); [left; reflexivity|].
    destruct (overflows c); [left; reflexivity|right; exact Hzero]. }
  destruct (vanishes x || vanishes y); [left; reflexivity|].
  destruct (overflows (x * y)); [right; exact Hzero|].
  destruct (vanishes (x * y)) eqn:E; [left; reflexivity|]. right.
  eexists. split; [reflexivity|].
  rewrite (Qeq_eqR _ _ (Qred_correct c)), (Qeq_eqR _ _ (Qred_correct (x * y))).
  assert (Hnz : ~ x * y == 0) by (apply vanishes_false_nonzero; exact E).
  assert (Hpos : 0 < x * y).
  { pose proof (Qsquare_nonneg c) as H0.
    assert (H1 : 0 <= x * y) by (apply Qle_trans with (c * c); assumption).
    apply Qle_lteq in H1 as [H1|H1]; [exact H1|symmetry in H1; contradiction]. }
  apply Qle_Rle in Hcs. rewrite Q2R_mult in Hcs.
  apply Qlt_Rlt in Hpos. rewrite RMicromega.Q2R_0 in Hpos.
  apply Rdiv_between.
  - apply sqrt_lt_R0. exact Hpos.
  - rewrite sqrt_sqrt by Lra.lra. exact Hcs.
Qed.

(** A Pearson correlation is NaN or a real number between -1 and 1. *)
Lemma pearson_range (x y : list (option Q)) :
  pearson x y = NaN
  \/ exists r, number_R (pearson x y) = Some r /\ (-1 <= r <= 1)%R.
Proof.
  unfold pearson. destruct (complete_pairs x y) as [|p ps] eqn:Eps; [left; reflexivity|].
  rewrite <- Eps. rewrite pearson_pairs_nonempty by (rewrite Eps; discriminate).
  cbv zeta. apply correlation_value_range.
  apply (Qsum_cauchy_schwarz
           (fun p : Q * Q => fst p - Qsum (map fst (complete_pairs x y)) / Qlen (complete_pairs x y))
           (fun p => snd p - Qsum (map snd (complete_pairs x y)) / Qlen (complete_pairs x y))).
Qed.

(** X5: whatever the two columns, the value printed by [correlation_coef]
    is NaN or a real number between -1 and 1, and so is every entry of the
    matrix shown by [correlation_matrix]. *)
Theorem X5_correlation_range (d : DataFrame) :
  (forall a b v,
      printed_correlation (call (correlation_coef a b) d) = Some v ->
      v = NaN \/ exists r, number_R v = Some r /\ (-1 <= r <= 1)%R)
  /\ (forall features m i j v,
         call (correlation_matrix features) d = (ok tt, [Show (FigHeatmap features m)]) ->
         iloc m i j = ok v ->
         v = NaN \/ exists r, number_R v = Some r /\ (-1 <= r <= 1)%R).
Proof.
  split.
  - intros a b v. rewrite correlation_coef_run.
    destruct (getcol d a) as [e|ca]; [discriminate|].
    destruct (getcol d b) as [e|cb]; [discriminate|].
    destruct (as_floats (cells ca)) as [e|xa]; [discriminate|].
    destruct (as_floats (cells cb)) as [e|xb]; [discriminate|].
    unfold printed_correlation. cbn. intros [= <-]. apply pearson_range.
  - intros features m i j v Hrun Hv.
    destruct (correlation_matrix_inv _ _ _ _ Hrun) as (sel & cols & _ & _ & ->).
    apply iloc_corr_of in Hv as (Hi & Hj & ->). unfold corr_entry.
    destruct (cols !! Nat.max i j) as [x|]; [|left; reflexivity].
    destruct (cols !! Nat.min i j) as [y|]; [|left; reflexivity].
    apply pearson_range.
Qed.

Lemma X5_correlation_range_witness :
  DivSqrt (-2 # 3) (3115 # 9) = NaN
  \/ exists r, number_R (DivSqrt (-2 # 3) (3115 # 9)) = Some r /\ (-1 <= r <= 1)%R.
Proof.
  apply (proj1 (X5_correlation_range df_ratings) "Food" "Staff")%string.
  vm_compute. reflexivity.
Defined.

(** *** Correlation of a column with itself, and what the matrix holds *)



Lemma select_first_missing (d : DataFrame) (pre post : list string) (name : string) (e : exn) :
  (forall f, In f pre -> exists s, getcol d f = ok s) ->
  getcol d name = inl e ->
  select d (pre ++ name :: post) = fail (KeyError (CStr name)).
Proof.
  intros Hpre Hname. unfold select.
  assert (H : rmap (fun n => s <-? getcol d n; ok (n, s)) (pre ++ name :: post)
              = fail (KeyError (CStr name))).
  { induction pre as [|f pre IH]; cbn [app rmap].
    - unfold getcol in *. destruct (assoc name (columns d)); [discriminate|reflexivity].
    - destruct (Hpre f) as (s & Hs); [left; reflexivity|]. rewrite Hs. cbn [rbind ok].
      rewrite IH; [reflexivity|]. intros g Hg. apply Hpre. right. exact Hg. }
  rewrite H. reflexivity.
Qed.

Lemma getcol_where_eq (d sub : DataFrame) (splitter : string) (split : cell) (name : string) :
  where_eq d splitter split = ok sub ->
  match getcol d name, getcol sub name with
  | inr _, inr _ => True
  | inl e, inl e' => e = e'
  | _, _ => False
  end.
Proof.
  unfold where_eq. destruct (getcol d splitter) as [e|ks]; cbn [rbind]; [discriminate|].
  intros [= <-]. rewrite getcol_mask_frame. destruct (getcol d name); [reflexivity|exact I].
Qed.

(** X7: when a feature list names a column that the table does not have,
    [correlation_matrix], [plot_combined_boxplot] and [eda] fail with a
    [KeyError] and nothing is printed or shown: in [eda] the selection of
    the features precedes the printed summary. *)
Theorem X7_missing_feature
    (d : DataFrame) (pre post : list string) (name : string) (e : exn) :
  (forall f, In f pre -> exists s, getcol d f = ok s) ->
  getcol d name = inl e ->
  (exists key,
      call (correlation_matrix (pre ++ name :: post)) d = (fail (KeyError key), []))
  /\ (forall split, exists key,
         call (plot_combined_boxplot split (pre ++ name :: post)) d
         = (fail (KeyError key), []))
  /\ (forall splitter split ks,
         getcol d splitter = ok ks ->
         exists key,
           call (eda splitter split (pre ++ name :: post)) d
           = (fail (KeyError key), [])).
Proof.
  intros Hpre Hname. split; [|split].
  - exists (CStr name). unfold call, correlation_matrix, bind, lift, deref, emit. cbn.
    rewrite (select_first_missing d pre post name e Hpre Hname). reflexivity.
  - intros split. exists (CStr name).
    unfold call, plot_combined_boxplot, bind, lift, deref, emit. cbn.
    rewrite (select_first_missing d pre post name e Hpre Hname). reflexivity.
  - intros splitter split ks Hks. exists (CStr name).
    assert (Hsub : where_eq d splitter split = ok (mask_frame (eq_mask ks split) d)).
    { unfold where_eq. rewrite Hks. reflexivity. }
    rewrite (eda_steps d _ splitter split _ Hsub). unfold print_summary.
    rewrite (select_first_missing (mask_frame (eq_mask ks split) d) pre post name e).
    + reflexivity.
    + intros f Hf. destruct (Hpre f Hf) as (s & Hs).
      pose proof (getcol_where_eq d _ splitter split f Hsub) as H. rewrite Hs in H.
      unfold ok in H. destruct (getcol (mask_frame (eq_mask ks split) d) f); [contradiction|eauto].
    + pose proof (getcol_where_eq d _ splitter split name Hsub) as H. rewrite Hname in H.
      destruct (getcol (mask_frame (eq_mask ks split) d) name); [congruence|contradiction].
Qed.

Lemma X7_missing_feature_witness :
  (exists key,
      call (correlation_matrix (["Food"%string] ++ "Price"%string :: ["Staff"%string])%list)
        df_ratings
      = (fail (KeyError key), []))
  /\ (exists key,
         call (eda "Class" (CStr "A") (["Food"%string] ++ "Price"%string :: ["Staff"%string])%list)
           df_ratings
         = (fail (KeyError key), [])).
Proof.
  destruct (X7_missing_feature df_ratings ["Food"%string] ["Staff"%string] "Price"
              (KeyError (CStr "Price"))) as (H1 & _ & H3).
  - intros f [<-|[]]. eexists. reflexivity.
  - reflexivity.
  - split; [exact H1|].
    apply (H3 "Class"%string (CStr "A")
              (mkSeries Object [CStr "A"; CStr "A"; CStr "A"; CStr "B"; CStr "B"; CStr "B"])).
    reflexivity.
Defined.

(** X8: the matrix shown by [correlation_matrix] is square, with one row
    and one column per feature in the order of the feature list, and its
    entry at row [i] and column [j] is the Pearson correlation of the
    columns named by features [i] and [j]. *)
Theorem X8_matrix_entries
    (d : DataFrame) (features : list string) (m : list (list number)) :
  call (correlation_matrix features) d = (ok tt, [Show (FigHeatmap features m)]) ->
  length m = length features
  /\ Forall (fun row => length row = length features) m
  /\ forall i j fi fj ci cj xi xj,
       features !! i = Some fi -> features !! j = Some fj ->
       getcol d fi = ok ci -> getcol d fj = ok cj ->
       as_floats (cells ci) = ok xi -> as_floats (cells cj) = ok xj ->
       iloc m i j = ok (pearson xi xj).
Proof.
  intros Hrun.
  destruct (correlation_matrix_inv _ _ _ _ Hrun) as (sel & cols & Hsel & Hcols & ->).
  assert (Hlen : length cols = length features).
  { rewrite (rmap_length _ _ _ Hcols). unfold select in Hsel.
    destruct (rmap _ features) as [e|cs] eqn:E; cbn in Hsel; [discriminate|].
    injection Hsel as <-. cbn. apply (rmap_length _ _ _ E). }
  split; [|split].
  - unfold corr_of. rewrite length_map, length_seq. exact Hlen.
  - unfold corr_of. apply List.Forall_forall. intros row Hrow.
    apply in_map_iff in Hrow as (i & <- & _). rewrite length_map, length_seq. exact Hlen.
  - intros i j fi fj ci cj xi xj Hi Hj Hci Hcj Hxi Hxj.
    destruct (select_lookup _ _ _ _ _ Hsel Hi) as (ci' & Hci' & Hlki).
    destruct (select_lookup _ _ _ _ _ Hsel Hj) as (cj' & Hcj' & Hlkj).
    assert (ci' = ci) by (unfold ok in *; congruence). subst ci'.
    assert (cj' = cj) by (unfold ok in *; congruence). subst cj'.
    destruct (rmap_lookup _ _ _ Hcols) as [_ Hlk].
    destruct (Hlk _ _ Hlki) as (xi' & Hxi' & Ei). cbn in Ei.
    destruct (Hlk _ _ Hlkj) as (xj' & Hxj' & Ej). cbn in Ej.
    assert (xi' = xi) by (unfold ok in *; congruence). subst xi'.
    assert (xj' = xj) by (unfold ok in *; congruence). subst xj'.
    apply iloc_corr_of.
    split; [eapply lookup_lt_Some; exact Hxi'|].
    split; [eapply lookup_lt_Some; exact Hxj'|].
    symmetry. apply corr_entry_pearson; assumption.
Qed.

Lemma X8_matrix_entries_witness :
  length [[DivSqrt (70 # 3) (4900 # 9); DivSqrt (-2 # 3) (3115 # 9)];
          [DivSqrt (-2 # 3) (3115 # 9); DivSqrt (89 # 6) (7921 # 36)]] = 2%nat.
Proof.
  refine (proj1 (X8_matrix_entries df_ratings ["Food"; "Staff"]%string _ _)).
  vm_compute. reflexivity.
Defined.

(** *** The subset extracted by [eda] *)

Lemma schema_mask_frame (mask : list bool) (d : DataFrame) :
  schema (mask_frame mask d) = schema d.
Proof.
  unfold schema, mask_frame. cbn. rewrite map_map. reflexivity.
Qed.

Lemma matching_cells (keys : list cell) (split : cell) :
  Forall (fun c => cell_eqb c split = true)
         (map (fun i => nth i keys CNA) (matching keys split)).
Proof.
  apply List.Forall_forall. intros c Hc. apply in_map_iff in Hc as (i & <- & Hi).
  apply matching_spec in Hi. tauto.
Qed.

Lemma matching_length (keys : list cell) (split : cell) :
  (length (matching keys split) <= length keys)%nat.
Proof.
  unfold matching. etransitivity; [apply filter_length_le|]. rewrite length_seq. reflexivity.
Qed.

Lemma wf_mask_frame (d : DataFrame) (ks : Series) (split : cell) :
  wf d -> length (cells ks) = nrows d ->
  Forall (fun c => length (cells (snd c)) = length (matching (cells ks) split))
         (columns (mask_frame (eq_mask ks split) d)).
Proof.
  intros Hwf Hks. unfold mask_frame. cbn [columns].
  apply List.Forall_forall. intros c Hc. apply in_map_iff in Hc as (c0 & <- & Hc0).
  cbn. unfold eq_mask. rewrite take_mask_matching.
  - rewrite length_map. reflexivity.
  - unfold wf in Hwf. rewrite List.Forall_forall in Hwf. rewrite (Hwf c0 Hc0). symmetry. exact Hks.
Qed.

Lemma nrows_uniform (d : DataFrame) (n : nat) :
  columns d <> [] ->
  Forall (fun c => length (cells (snd c)) = n) (columns d) ->
  nrows d = n /\ wf d.
Proof.
  intros Hne H. unfold wf, nrows. destruct (columns d) as [|[name s] cols]; [congruence|].
  pose proof (List.Forall_inv H) as Hs. cbn in Hs. split; [exact Hs|].
  rewrite Hs. exact H.
Qed.

Lemma getcol_columns_nonempty (d : DataFrame) (name : string) (s : Series) :
  getcol d name = ok s -> columns d <> [].
Proof. intros H%getcol_In E. rewrite E in H. destruct H. Qed.

(** The invariants of boolean indexing. *)
Lemma where_eq_invariants (d : DataFrame) (splitter : string) (split : cell) (ks : Series) :
  wf d -> getcol d splitter = ok ks ->
  let sub := mask_frame (eq_mask ks split) d in
  where_eq d splitter split = ok sub
  /\ schema sub = schema d
  /\ wf sub
  /\ nrows sub = length (matching (cells ks) split)
  /\ getcol sub splitter = ok (mask_series (eq_mask ks split) ks)
  /\ Forall (fun c => cell_eqb c split = true) (take_mask (eq_mask ks split) (cells ks)).
Proof.
  intros Hwf Hks sub.
  pose proof (getcol_length d splitter ks Hwf Hks) as Hlen.
  pose proof (wf_mask_frame d ks split Hwf Hlen) as Hcols.
  assert (Hne : columns sub <> []).
  { unfold sub, mask_frame. cbn. intros E. apply map_eq_nil in E.
    exact (getcol_columns_nonempty d splitter ks Hks E). }
  destruct (nrows_uniform sub (length (matching (cells ks) split)) Hne Hcols) as [Hn Hwf'].
  split; [unfold where_eq; rewrite Hks; reflexivity|].
  split; [apply schema_mask_frame|]. split; [exact Hwf'|]. split; [exact Hn|].
  split; [unfold sub; rewrite getcol_mask_frame, Hks; reflexivity|].
  unfold eq_mask. rewrite take_mask_matching by reflexivity. apply matching_cells.
Qed.

(** X9: the table that [eda] extracts keeps the columns and dtypes of the
    input, is well formed, has one row per matching row of the input (so no
    more rows than the input), and every cell of its grouping column equals
    the target value. *)
Theorem X9_subset_invariants
    (d sub : DataFrame) (splitter : string) (split : cell) (ks : Series) :
  wf d -> getcol d splitter = ok ks ->
  where_eq d splitter split = ok sub ->
  schema sub = schema d
  /\ wf sub
  /\ nrows sub = length (matching (cells ks) split)
  /\ (nrows sub <= nrows d)%nat
  /\ exists ks', getcol sub splitter = ok ks'
                 /\ Forall (fun c => cell_eqb c split = true) (cells ks').
Proof.
  intros Hwf Hks Hsub.
  destruct (where_eq_invariants d splitter split ks Hwf Hks) as (E & H1 & H2 & H3 & H4 & H5).
  assert (sub = mask_frame (eq_mask ks split) d) by (unfold ok in *; congruence). subst sub.
  split; [exact H1|]. split; [exact H2|]. split; [exact H3|]. split.
  - rewrite H3, <- (getcol_length d splitter ks Hwf Hks). apply matching_length.
  - eexists. split; [exact H4|exact H5].
Qed.

Lemma X9_subset_invariants_witness :
  schema (frame_of_rows (schema df_ratings) (rows_where df_ratings "Class" (CStr "A")))
  = schema df_ratings
  /\ nrows (frame_of_rows (schema df_ratings) (rows_where df_ratings "Class" (CStr "A")))
     = 3%nat.
Proof.
  destruct (X9_subset_invariants df_ratings
              (frame_of_rows (schema df_ratings) (rows_where df_ratings "Class" (CStr "A")))
              "Class" (CStr "A")
              (mkSeries Object [CStr "A"; CStr "A"; CStr "A"; CStr "B"; CStr "B"; CStr "B"]))
    as (H1 & _ & H3 & _).
  - repeat constructor.
  - reflexivity.
  - reflexivity.
  - split; [exact H1|exact H3].
Defined.

Lemma take_mask_true {A} (mask : list bool) (l : list A) :
  Forall (fun b => b = true) mask -> (length l <= length mask)%nat -> take_mask mask l = l.
Proof.
  intros H. revert l. induction H as [|b mask -> _ IH]; intros [|x l] Hlen; cbn in *;
    try reflexivity; try lia.
  rewrite IH by lia. reflexivity.
Qed.

Lemma mask_frame_true (mask : list bool) (d : DataFrame) :
  Forall (fun b => b = true) mask ->
  Forall (fun c => (length (cells (snd c)) <= length mask)%nat) (columns d) ->
  mask_frame mask d = d.
Proof.
  intros Hm Hc. destruct d as [cols]. unfold mask_frame. cbn in *. f_equal.
  induction Hc as [|[name [t l]] cols Hlen _ IH]; [reflexivity|].
  cbn [map]. rewrite IH. unfold mask_series. cbn in *.
  rewrite (take_mask_true mask l Hm Hlen). reflexivity.
Qed.

(** Extracting the subset of a subset changes nothing. *)
Lemma where_eq_idempotent (d sub : DataFrame) (splitter : string) (split : cell) :
  wf d -> where_eq d splitter split = ok sub -> where_eq sub splitter split = ok sub.
Proof.
  intros Hwf Hsub.
  destruct (getcol d splitter) as [e|ks] eqn:Hks.
  { unfold where_eq in Hsub. rewrite Hks in Hsub. discriminate. }
  destruct (where_eq_invariants d splitter split ks Hwf Hks) as (E & _ & H2 & H3 & H4 & H5).
  assert (sub = mask_frame (eq_mask ks split) d) by (unfold ok in *; congruence). subst sub.
  unfold where_eq at 1. rewrite H4. cbn [rbind ok]. f_equal.
  apply mask_frame_true.
  - unfold eq_mask, mask_series. cbn [cells]. apply List.Forall_forall.
    intros b Hb. apply in_map_iff in Hb as (c & <- & Hc).
    rewrite List.Forall_forall in H5. apply H5. exact Hc.
  - unfold wf in H2. eapply List.Forall_impl; [|exact H2]. intros c Hc. cbn beta in Hc.
    rewrite Hc. unfold eq_mask, mask_series. cbn [cells]. rewrite length_map.
    pose proof (getcol_length _ _ _ H2 H4) as Hl. cbn [cells mask_series] in Hl.
    unfold eq_mask in Hl. rewrite Hl. reflexivity.
Qed.

(** X10: running [eda] on the subset it extracts gives the same printed
    statistics and the same figures as running it on the whole table: the
    filter of line 240 is idempotent. *)
Theorem X10_eda_on_its_subset
    (d sub : DataFrame) (splitter : string) (split : cell) (features : list string) :
  wf d ->
  where_eq d splitter split = ok sub ->
  call (eda splitter split features) sub = call (eda splitter split features) d.
Proof.
  intros Hwf Hsub.
  rewrite (eda_steps d sub splitter split features Hsub).
  apply eda_steps. apply (where_eq_idempotent d); assumption.
Qed.

Lemma X10_eda_on_its_subset_witness :
  call (eda "Class" (CStr "A") ["Food"; "Staff"]%string)
       (mask_frame (eq_mask (mkSeries Object [CStr "A"; CStr "A"; CStr "A"; CStr "B"; CStr "B"; CStr "B"])
                            (CStr "A")) df_ratings)
  = call (eda "Class" (CStr "A") ["Food"; "Staff"]%string) df_ratings.
Proof.
  apply X10_eda_on_its_subset.
  - repeat constructor.
  - reflexivity.
Defined.

(** *** [eda] on a value that no row has *)

Lemma matching_nil_mask (keys : list cell) (split : cell) :
  matching keys split = [] ->
  Forall (fun b => b = false) (map (fun c => cell_eqb c split) keys).
Proof.
  intros H. apply List.Forall_forall. intros b Hb.
  apply in_map_iff in Hb as (c & <- & Hc).
  destruct (cell_eqb c split) eqn:E; [|reflexivity]. exfalso.
  apply list_elem_of_In, list_elem_of_lookup_1 in Hc as [i Hi].
  assert (Hin : In i (matching keys split)).
  { apply matching_spec. split; [eapply lookup_lt_Some; exact Hi|].
    rewrite nth_lookup, Hi. exact E. }
  rewrite H in Hin. destruct Hin.
Qed.

Lemma rows_where_nil (d : DataFrame) (splitter : string) (split : cell) (ks : Series) :
  getcol d splitter = ok ks -> rows_where d splitter split = [] ->
  matching (cells ks) split = [].
Proof.
  unfold rows_where. intros ->. cbv beta iota delta [ok]. apply map_eq_nil.
Qed.

(** The columns of the features in a subset without rows. *)
Lemma select_empty_subset (d : DataFrame) (mask : list bool) (features : list string) :
  Forall (fun b => b = false) mask ->
  (forall f, In f features -> exists s, getcol d f = ok s /\ dt s = Float64) ->
  select (mask_frame mask d) features
  = ok (mkFrame (map (fun f => (f, mkSeries Float64 [])) features)).
Proof.
  intros Hmask Hf. unfold select.
  assert (H : rmap (fun n => s <-? getcol (mask_frame mask d) n; ok (n, s)) features
              = ok (map (fun f => (f, mkSeries Float64 [])) features)).
  { induction features as [|f features IH]; [reflexivity|]. cbn [rmap map].
    destruct (Hf f) as (s & Hs & Hdt); [left; reflexivity|].
    rewrite getcol_mask_frame, Hs. cbn [rbind ok].
    rewrite IH by (intros g Hg; apply Hf; right; exact Hg). cbn [rbind ok].
    unfold mask_series. rewrite Hdt, (take_mask_false mask (cells s) Hmask). reflexivity. }
  rewrite H. reflexivity.
Qed.

Lemma filter_numeric_empty (l : list string) :
  List.filter (fun c : string * Series => is_numeric (snd c))
              (map (fun f => (f, mkSeries Float64 [])) l)
  = map (fun f => (f, mkSeries Float64 [])) l.
Proof. induction l as [|g l IH]; [reflexivity|]. cbn. f_equal. exact IH. Qed.

Lemma rmap_summary_empty (l : list string) :
  rmap (fun c : string * Series => xs <-? as_floats (cells (snd c)); ok (fst c, summary xs))
       (map (fun f => (f, mkSeries Float64 [])) l)
  = ok (map (fun f => (f, empty_summary)) l).
Proof. induction l as [|g l IH]; [reflexivity|]. cbn [map rmap]. rewrite IH. reflexivity. Qed.

Lemma describe_empty_columns (features : list string) :
  features <> [] ->
  describe (mkFrame (map (fun f => (f, mkSeries Float64 [])) features))
  = ok (Numeric (map (fun f => (f, empty_summary)) features)).
Proof.
  intros Hne. unfold describe. cbn [columns].
  rewrite filter_numeric_empty.
  destruct features as [|f fs]; [congruence|].
  change (match map (fun f0 : string => (f0, mkSeries Float64 [])) (f :: fs) with
          | [] => ?a
          | _ :: _ => ?b
          end) with b.
  pose proof (rmap_summary_empty (f :: fs)) as H. cbn [map] in H |- *.
  rewrite H. reflexivity.
Qed.

Lemma corr_empty_columns (features : list string) :
  corr (mkFrame (map (fun f => (f, mkSeries Float64 [])) features))
  = ok (replicate (length features) (replicate (length features) NaN)).
Proof.
  unfold corr. cbn [columns].
  assert (H : rmap (fun c : string * Series => as_floats (cells (snd c)))
                (map (fun f => (f, mkSeries Float64 [])) features)
              = ok (replicate (length features) [])).
  { induction features as [|f fs IH]; [reflexivity|]. cbn [map rmap length replicate].
    rewrite IH. reflexivity. }
  rewrite H. cbn [rbind ok]. f_equal. unfold corr_of. rewrite length_replicate.
  set (n := length features).
  assert (Hentry : forall i j, corr_entry (replicate n []) i j = NaN).
  { intros i j. unfold corr_entry.
    destruct (replicate n [] !! Nat.max i j) as [x|] eqn:Ex; [|reflexivity].
    destruct (replicate n [] !! Nat.min i j) as [y|] eqn:Ey; [|reflexivity].
    apply lookup_replicate in Ex as [-> _]. apply lookup_replicate in Ey as [-> _].
    reflexivity. }
  assert (Hconst : forall {A B} (c : B) (l : list A), map (fun _ => c) l = replicate (length l) c).
  { intros A B c l. induction l as [|a l IH]; [reflexivity|]. cbn. rewrite IH. reflexivity. }
  rewrite (map_ext _ (fun _ => replicate n NaN)).
  - rewrite Hconst, length_seq. reflexivity.
  - intros i. rewrite (map_ext _ (fun _ => NaN)) by (intros j; apply Hentry).
    rewrite Hconst, length_seq. reflexivity.
Qed.

(** X11: a missing value as target selects no row, whatever the table; and
    when no row has the target value, [eda] on numeric features still
    prints and shows: the summary has count 0 and NaN for every statistic
    of every feature, the box plot is drawn on columns without values, and
    every entry of the heatmap is NaN. *)
Theorem X11_eda_without_matching_row
    (d : DataFrame) (splitter : string) (features : list string) (ks : Series) :
  wf d ->
  getcol d splitter = ok ks ->
  rows_where d splitter CNA = []
  /\ forall split,
       rows_where d splitter split = [] ->
       features <> [] ->
       (forall f, In f features -> exists s, getcol d f = ok s /\ dt s = Float64) ->
       call (eda splitter split features) d
       = (ok tt,
          [Print (LDescribe (Numeric (map (fun f => (f, empty_summary)) features)));
           Show (FigBox split (mkFrame (map (fun f => (f, mkSeries Float64 [])) features)));
           Show (FigHeatmap features
                   (replicate (length features) (replicate (length features) NaN)))]).
Proof.
  intros Hwf Hks. split.
  - unfold rows_where. rewrite Hks. cbv beta iota delta [ok].
    assert (E : matching (cells ks) CNA = []).
    { unfold matching. induction (seq 0 (length (cells ks))) as [|i l IH]; [reflexivity|].
      cbn. rewrite cell_eqb_na. exact IH. }
    rewrite E. reflexivity.
  - intros split Hrows Hne Hf.
    pose proof (matching_nil_mask _ _ (rows_where_nil d splitter split ks Hks Hrows)) as Hmask.
    fold (eq_mask ks split) in Hmask.
    assert (Hsub : where_eq d splitter split = ok (mask_frame (eq_mask ks split) d)).
    { unfold where_eq. rewrite Hks. reflexivity. }
    rewrite (eda_steps d _ splitter split features Hsub).
    pose proof (select_empty_subset d (eq_mask ks split) features Hmask Hf) as Hsel.
    unfold print_summary. rewrite Hsel. cbn [rbind ok].
    rewrite (describe_empty_columns features Hne).
    unfold and_then. cbn [fst snd].
    unfold call, plot_combined_boxplot, correlation_matrix, bind, lift, deref, emit. cbn.
    rewrite Hsel. cbn. rewrite (corr_empty_columns features). cbn.
    destruct features as [|f fs]; [congruence|]. reflexivity.
Qed.

Lemma X11_eda_without_matching_row_witness :
  call (eda "Class" (CStr "First") ["Food"; "Staff"]%string) df_ratings
  = (ok tt,
     [Print (LDescribe (Numeric [("Food"%string, empty_summary); ("Staff"%string, empty_summary)]));
      Show (FigBox (CStr "First")
              (mkFrame [("Food"%string, mkSeries Float64 []); ("Staff"%string, mkSeries Float64 [])]));
      Show (FigHeatmap ["Food"; "Staff"]%string [[NaN; NaN]; [NaN; NaN]])]).
Proof.
  apply (proj2 (X11_eda_without_matching_row df_ratings "Class" ["Food"; "Staff"]%string
                  (mkSeries Object [CStr "A"; CStr "A"; CStr "A"; CStr "B"; CStr "B"; CStr "B"])
                  ltac:(repeat constructor) eq_refl)).
  - reflexivity.
  - discriminate.
  - intros f [<-|[<-|[]]]; eexists; split; reflexivity.
Defined.

(** X12: [eda] prints and shows nothing when the grouping column is
    missing ([KeyError] naming it) and when the feature list is empty (the
    summary of a table without columns is refused). *)
Theorem X12_eda_refusals (d : DataFrame) (splitter : string) (split : cell) :
  (forall features e,
      getcol d splitter = inl e ->
      call (eda splitter split features) d = (fail (KeyError (CStr splitter)), []))
  /\ (forall ks,
         getcol d splitter = ok ks ->
         call (eda splitter split []) d
         = (fail (ValueError "Cannot describe a DataFrame without columns"), [])).
Proof.
  split.
  - intros features e He. unfold call, eda, bind, lift, deref, where_eq. cbn.
    unfold getcol in *. destruct (assoc splitter (columns d)); [discriminate|reflexivity].
  - intros ks Hks.
    assert (Hsub : where_eq d splitter split = ok (mask_frame (eq_mask ks split) d)).
    { unfold where_eq. rewrite Hks. reflexivity. }
    rewrite (eda_steps d _ splitter split [] Hsub). reflexivity.
Qed.

Lemma X12_eda_refusals_witness :
  call (eda "Cabin" (CStr "A") ["Food"%string]) df_ratings
  = (fail (KeyError (CStr "Cabin")), [])
  /\ call (eda "Class" (CStr "A") []) df_ratings
     = (fail (ValueError "Cannot describe a DataFrame without columns"), []).
Proof.
  split.
  - apply (proj1 (X12_eda_refusals df_ratings "Cabin" (CStr "A")) _ (KeyError (CStr "Cabin"))).
    reflexivity.
  - apply (proj2 (X12_eda_refusals df_ratings "Class" (CStr "A"))
             (mkSeries Object [CStr "A"; CStr "A"; CStr "A"; CStr "B"; CStr "B"; CStr "B"])).
    reflexivity.
Defined.

(** *** [traveller_type]: the pie chart and the colours *)

Lemma Sorted_map {A B} (R : A -> A -> Prop) (R' : B -> B -> Prop) (f : A -> B) (l : list A) :
  (forall a b, R a b -> R' (f a) (f b)) -> Sorted R l -> Sorted R' (map f l).
Proof.
  intros HR. induction 1 as [|a l _ IH Hhd]; cbn; constructor; [exact IH|].
  destruct Hhd; cbn; constructor. apply HR. assumption.
Qed.

Lemma Qsum_scale {A} (f : A -> Q) (c : Q) (l : list A) :
  Qsum (map (fun x => f x * c) l) == Qsum (map f l) * c.
Proof.
  induction l as [|a l IH]; cbn [map Qsum foldr]; [ring|].
  fold (Qsum (map (fun x => f x * c) l)). fold (Qsum (map f l)). rewrite IH. ring.
Qed.

Lemma Qsum_term_le {A} (f : A -> Q) (l : list A) (a : A) :
  (forall x, In x l -> 0 <= f x) -> In a l -> f a <= Qsum (map f l).
Proof.
  induction l as [|x l IH]; intros H Ha; [destruct Ha|].
  cbn [map Qsum foldr]. fold (Qsum (map f l)).
  assert (0 <= f x) by (apply H; left; reflexivity).
  assert (Hl : forall y, In y l -> 0 <= f y) by (intros y Hy; apply H; right; exact Hy).
  pose proof (Qsum_nonneg f l Hl).
  destruct Ha as [->|Ha]; [lra|]. specialize (IH Hl Ha). lra.
Qed.

Lemma Qnat_le (n m : nat) : (n <= m)%nat -> Qnat n <= Qnat m.
Proof. intros H. unfold Qnat. rewrite <- Zle_Qle. apply Nat2Z.inj_le. exact H. Qed.

Lemma Qnat_pos (n : nat) : (1 <= n)%nat -> 0 < Qnat n.
Proof.
  intros H. unfold Qnat. change 0 with (inject_Z 0). rewrite <- Zlt_Qlt.
  apply Nat2Z.inj_lt in H. exact H.
Qed.

(** The counts of [value_counts]: one entry per distinct present value,
    each counted at least once, most frequent first. *)
Lemma value_counts_spec (l : list cell) :
  distinct_keys (map fst (value_counts l))
  /\ Forall (fun kn => (1 <= snd kn)%nat) (value_counts l)
  /\ Sorted (fun a b => (snd b <= snd a)%nat) (value_counts l).
Proof.
  unfold value_counts. set (present := List.filter _ l).
  set (f := fun k : cell => (k, length (List.filter (fun c => key_eqb c k) present))).
  split; [|split].
  - eapply distinct_keys_perm.
    + apply Permutation_map. symmetry. apply sort_by_perm.
    + rewrite map_map. cbn. rewrite map_id. apply unique_acc_distinct.
  - eapply Permutation_Forall; [symmetry; apply sort_by_perm|].
    apply List.Forall_forall. intros kn Hkn. apply in_map_iff in Hkn as (k & <- & Hk).
    cbn. apply unique_In in Hk.
    destruct (List.filter (fun c => key_eqb c k) present) as [|c r] eqn:E; [|cbn; lia].
    exfalso. assert (Hin : In k (List.filter (fun c => key_eqb c k) present)).
    { apply filter_In. split; [exact Hk|apply key_eqb_refl]. }
    rewrite E in Hin. destruct Hin.
  - apply Sorted_weaken with (R := may_precede count_gtb).
    + unfold may_precede, count_gtb. intros a b H. apply Nat.ltb_ge in H. exact H.
    + apply sort_by_sorted. unfold count_gtb. intros a b H.
      apply Nat.ltb_lt in H. apply Nat.ltb_ge. lia.
Qed.

(** The shares of counted values. *)
Lemma shares_spec (counts : list (cell * nat)) :
  Forall (fun kn => (1 <= snd kn)%nat) counts ->
  Sorted (fun a b => (snd b <= snd a)%nat) counts ->
  Forall (fun s => 0 < snd s <= 100) (shares counts)
  /\ Sorted (fun a b => snd b <= snd a) (shares counts)
  /\ (counts <> [] -> Qsum (map snd (shares counts)) == 100).
Proof.
  intros Hpos Hsorted. unfold shares.
  set (total := Qsum (map (fun kn : cell * nat => inject_Z (Z.of_nat (snd kn))) counts)).
  rewrite List.Forall_forall in Hpos.
  assert (Hnn : forall kn, In kn counts -> 0 <= Qnat (snd kn)).
  { intros kn Hkn. apply Qlt_le_weak, Qnat_pos. auto. }
  assert (Hterm : forall kn, In kn counts -> 0 < Qnat (snd kn) <= total).
  { intros kn Hkn. split; [apply Qnat_pos; auto|].
    exact (Qsum_term_le (fun kn => Qnat (snd kn)) counts kn Hnn Hkn). }
  assert (Htotal : counts <> [] -> 0 < total).
  { intros Hne. destruct counts as [|kn r]; [congruence|].
    destruct (Hterm kn) as [H1 H2]; [left; reflexivity|]. lra. }
  split; [|split].
  - apply List.Forall_forall. intros s Hs. apply in_map_iff in Hs as (kn & <- & Hkn).
    cbn [snd]. rewrite Qred_correct.
    destruct (Hterm kn Hkn) as [Hn Hle]. fold (Qnat (snd kn)).
    assert (Ht : 0 < total) by lra.
    assert (H01 : 0 < Qnat (snd kn) / total <= 1).
    { split.
      - apply Qlt_shift_div_l; [exact Ht|]. lra.
      - apply Qle_shift_div_r; [exact Ht|]. lra. }
    set (q := Qnat (snd kn) / total) in *. lra.
  - apply Sorted_map with (R := fun a b : cell * nat => (snd b <= snd a)%nat); [|exact Hsorted].
    intros a b Hab. cbn [snd]. rewrite !Qred_correct.
    apply Qnat_le in Hab. unfold Qnat in Hab.
    assert (Hinv : 0 <= / total).
    { apply Qinv_le_0_compat. exact (Qsum_nonneg (fun kn => Qnat (snd kn)) counts Hnn). }
    unfold Qdiv.
    apply Qmult_le_compat_r; [|lra]. apply Qmult_le_compat_r; assumption.
  - intros Hne. specialize (Htotal Hne). rewrite map_map. cbn [snd].
    rewrite (Qsum_ext _ (fun kn => Qnat (snd kn) * (100 / total))).
    + rewrite Qsum_scale. unfold Qnat. fold total. clearbody total. field. lra.
    + intros kn _. rewrite Qred_correct. unfold Qnat. clearbody total. field. lra.
Qed.

(** X15: the slices of the pie chart of [traveller_type] (lines 279-280):
    one slice per distinct traveller type that is not missing, each with a
    share above 0 and at most 100, in non-increasing order of share, and the
    shares add up to 100 as soon as one type is present. *)
Theorem X15_pie_slices (l : list cell) :
  let slices := shares (value_counts l) in
  distinct_keys (map fst slices)
  /\ (forall k, In k (map fst slices) -> In k l /\ is_na k = false)
  /\ (forall c, In c l -> is_na c = false ->
                exists k, In k (map fst slices) /\ key_eqb c k = true)
  /\ Forall (fun s => 0 < snd s <= 100) slices
  /\ Sorted (fun a b => snd b <= snd a) slices
  /\ (slices <> [] -> Qsum (map snd slices) == 100).
Proof.
  cbv zeta. destruct (value_counts_spec l) as (Hd & Hpos & Hsorted).
  destruct (shares_spec (value_counts l) Hpos Hsorted) as (H1 & H2 & H3).
  rewrite shares_keys.
  split; [exact Hd|]. split; [|split; [|split; [|split]]].
  - intros k Hk. apply value_counts_keys, unique_In, filter_In in Hk.
    destruct Hk as [Hk Hna]. split; [exact Hk|]. destruct (is_na k); [discriminate|reflexivity].
  - intros c Hc Hna. destruct (observed_category_counted l c Hc Hna) as (k & Hk & _ & E).
    exists k. split; assumption.
  - exact H1.
  - exact H2.
  - intros Hne. apply H3. intros E. apply Hne. rewrite E. reflexivity.
Qed.

Lemma X15_pie_slices_witness :
  Qsum (map snd (shares (value_counts [CStr "Business"; CStr "Solo Leisure"; CStr "Business"])))
  == 100.
Proof.
  destruct (X15_pie_slices [CStr "Business"; CStr "Solo Leisure"; CStr "Business"])
    as (_ & _ & _ & _ & _ & H).
  apply H. vm_compute. discriminate.
Defined.

Lemma pie_colors_mapped (types : list cell) :
  (forall k, In k types -> exists c, dict_get color_map k = Some c) ->
  exists colors, pie_colors types = ok colors
                 /\ Forall2 (fun k c => dict_get color_map k = Some c) types colors.
Proof.
  unfold pie_colors. induction types as [|k types IH]; intros H.
  - exists []. split; [reflexivity|constructor].
  - destruct (H k) as (c & Hc); [left; reflexivity|].
    destruct IH as (colors & E & F); [intros k' Hk'; apply H; right; exact Hk'|].
    exists (c :: colors). cbn [rmap]. rewrite dict_getitem_get, Hc. cbn [rbind ok].
    rewrite E. split; [reflexivity|]. constructor; assumption.
Qed.

Lemma bar_colors_mapped (types : list cell) :
  (forall k, In k types -> exists c, dict_get color_map k = Some c) ->
  exists colors, bar_colors types = ok (map Some colors)
                 /\ Forall2 (fun k c => dict_get color_map k = Some c) types colors.
Proof.
  rewrite bar_colors_total. induction types as [|k types IH]; intros H.
  - exists []. split; [reflexivity|constructor].
  - destruct (H k) as (c & Hc); [left; reflexivity|].
    destruct IH as (colors & E & F); [intros k' Hk'; apply H; right; exact Hk'|].
    exists (c :: colors). cbn [map]. rewrite Hc. injection E as E. rewrite E.
    split; [reflexivity|]. constructor; assumption.
Qed.

Lemma sort_values_desc_perm {K} (s : list (K * option Q)) :
  Permutation (map fst (sort_values_desc s)) (map fst s).
Proof.
  rewrite sort_values_desc_split, List.map_app, !List.map_map. cbn [fst].
  rewrite <- (List.map_map fst (fun k : K => k)), List.map_id.
  apply sort_values_desc_keys.
Qed.

(** The keys of the Series [percent] are the group keys. *)
Lemma percent_series_perm (d : DataFrame) (splitter feature : string) (ks : Series)
    (percent : list (cell * option Q)) :
  getcol d splitter = ok ks ->
  percent_series d splitter feature = ok percent ->
  Permutation (map fst percent) (group_keys (cells ks)).
Proof.
  intros Hks. unfold percent_series, groupby_mean. rewrite Hks. cbn [rbind ok].
  destruct (getcol d feature) as [e|fs]; cbn [rbind]; [discriminate|].
  destruct (as_floats (cells fs)) as [e|xs]; cbn [rbind]; [discriminate|].
  intros [= <-]. rewrite sort_values_desc_perm.
  unfold times100. rewrite !List.map_map. cbn [fst]. rewrite List.map_id. reflexivity.
Qed.

(** What [traveller_type] does, in a world where [df] refers to [d]. *)
Lemma traveller_type_run_in (split : cell) (df : ref) (d : DataFrame) (w : World) :
  frames w !! df = Some d ->
  traveller_type split df w
  = match groupby_describe d "Type of Traveller" "Overall Rating" with
    | inl e => (inl e, w)
    | inr summary_stats =>
        let printed := [Print (LHeader split); Print (LGroupDescribe summary_stats)] in
        let w1 := mkWorld (frames w) (out w ++ printed) in
        match getcol d "Type of Traveller" with
        | inl e => (inl e, w1)
        | inr col =>
            let traveller_percentages := shares (value_counts (cells col)) in
            match pie_colors (map fst traveller_percentages) with
            | inl e => (inl e, w1)
            | inr colors =>
                match percent_series d "Type of Traveller" "Recommended" with
                | inl e => (inl e, w1)
                | inr type_percent =>
                    match bar_colors (map fst type_percent) with
                    | inl e => (inl e, w1)
                    | inr colors2 =>
                        match plt_pie split traveller_percentages colors with
                        | inl e => (inl e, w1)
                        | inr pie =>
                            match series_plot_bar type_percent with
                            | inl e =>
                                (inl e, mkWorld (frames w) (out w ++ printed ++ [Show pie]))
                            | inr heights =>
                                (ok tt,
                                 mkWorld (frames w)
                                   (out w ++ printed
                                    ++ [Show pie;
                                        Show (FigBar "Type of Traveller" "Recommended"
                                                type_percent (Colours colors2)
                                                (map Some heights))]))
                            end
                        end
                    end
                end
            end
        end
    end.
Proof.
  intros Hd. unfold traveller_type.
  rewrite (bind_deref df d) by exact Hd. rewrite bind_lift.
  destruct (groupby_describe d "Type of Traveller" "Overall Rating") as [e|stats]; [reflexivity|].
  unfold bind at 1, emit at 1. cbn [fst snd]. unfold bind at 1, emit at 1. cbn [frames out].
  rewrite <- app_assoc. cbn [app].
  rewrite (bind_deref df d) by exact Hd. rewrite bind_lift.
  destruct (getcol d "Type of Traveller") as [e|col]; [reflexivity|].
  cbv zeta. rewrite bind_lift.
  destruct (pie_colors _) as [e|colors]; [reflexivity|].
  rewrite (bind_deref df d) by exact Hd. rewrite bind_lift.
  destruct (percent_series d "Type of Traveller" "Recommended") as [e|tp] eqn:Etp; [reflexivity|].
  rewrite bind_lift. destruct (bar_colors (map fst tp)) as [e|colors2]; [reflexivity|].
  rewrite bind_lift. destruct (plt_pie split _ colors) as [e|pie]; [reflexivity|].
  unfold bind at 1, emit at 1. cbn [fst snd frames out].
  unfold plot_percentage. rewrite (bind_deref df d) by exact Hd.
  rewrite bind_lift, Etp. rewrite bind_lift.
  destruct (series_plot_bar tp) as [e|heights].
  - rewrite <- !app_assoc. reflexivity.
  - unfold emit. cbn [frames out]. rewrite <- !app_assoc. reflexivity.
Qed.

(** What a call of [traveller_type] does. *)
Lemma traveller_type_run (split : cell) (d : DataFrame) :
  call (traveller_type split) d
  = (fst (traveller_type split 0%nat (mkWorld [d] [])),
     out (snd (traveller_type split 0%nat (mkWorld [d] [])))).
Proof. reflexivity. Qed.

Lemma value_counts_nonempty (l : list cell) (t : cell) :
  In t l -> is_na t = false -> shares (value_counts l) <> [].
Proof.
  intros Hin Hna E.
  destruct (observed_category_counted l t Hin Hna) as (t' & Ht' & _).
  rewrite <- shares_keys, E in Ht'. destruct Ht'.
Qed.

Lemma value_counts_all_missing (l : list cell) :
  (forall t, In t l -> is_na t = true) -> shares (value_counts l) = [].
Proof.
  intros Hall. destruct (shares (value_counts l)) as [|[k q] sl] eqn:E; [reflexivity|].
  exfalso. assert (Hk : In k (map fst (shares (value_counts l)))) by (rewrite E; left; reflexivity).
  rewrite shares_keys in Hk. apply value_counts_keys, unique_In, filter_In in Hk.
  destruct Hk as [Hk Hna]. rewrite (Hall k Hk) in Hna. discriminate Hna.
Qed.

(** X16: when the column of traveller types has a value that is not
    missing, every observed traveller type is in [color_map] and the three
    columns can be aggregated, [traveller_type] prints its header and the
    grouped statistics, then shows the pie chart and the bar chart, in this
    order; each slice of the pie and each bar of the bar chart is drawn in
    the colour that [color_map] gives to its own traveller type (the colour
    list built at line 300 is in the order of the bars that
    [plot_percentage] recomputes). *)
Theorem X16_traveller_type_report
    (split : cell) (d : DataFrame) (col : Series) (stats : list (cell * summary1))
    (bars : list (cell * option Q)) :
  getcol d "Type of Traveller" = ok col ->
  groupby_describe d "Type of Traveller" "Overall Rating" = ok stats ->
  percent_series d "Type of Traveller" "Recommended" = ok bars ->
  (forall t, In t (cells col) -> is_na t = false ->
             exists c, dict_get color_map t = Some c) ->
  (exists t, In t (cells col) /\ is_na t = false) ->
  exists colors colors2,
    call (traveller_type split) d
    = (ok tt,
       [Print (LHeader split); Print (LGroupDescribe stats);
        Show (FigPie split (shares (value_counts (cells col))) colors);
        Show (FigBar "Type of Traveller" "Recommended" bars
                (Colours (map Some colors2))
                (map (fun kv => Some (drawn_height (snd kv))) bars))])
    /\ Forall2 (fun k c => dict_get color_map k = Some c)
               (map fst (shares (value_counts (cells col)))) colors
    /\ Forall2 (fun k c => dict_get color_map k = Some c) (map fst bars) colors2.
Proof.
  intros Hcol Hstats Hbars Hmapped (t & Ht & Htna).
  pose proof (percent_series_perm d _ _ col bars Hcol Hbars) as Hperm.
  destruct (pie_colors_mapped (map fst (shares (value_counts (cells col)))))
    as (colors & Epie & Fpie).
  { intros k Hk. rewrite shares_keys in Hk.
    apply value_counts_keys, unique_In, filter_In in Hk. destruct Hk as [Hk Hna].
    apply Hmapped; [exact Hk|]. destruct (is_na k); [discriminate|reflexivity]. }
  destruct (bar_colors_mapped (map fst bars)) as (colors2 & Ebar & Fbar).
  { intros k Hk.
    destruct (group_keys_In (cells col) k) as [Hin Hna];
      [eapply Permutation_in; eassumption|].
    apply Hmapped; assumption. }
  assert (Hslices : shares (value_counts (cells col)) <> [])
    by (eapply value_counts_nonempty; eassumption).
  assert (Hne : bars <> []).
  { intros E. destruct (group_keys_covers (cells col) t Ht Htna) as (k & Hk & _).
    apply (Permutation_in _ (Permutation_sym Hperm)) in Hk. rewrite E in Hk. destruct Hk. }
  exists colors, colors2. split; [|split; assumption].
  rewrite traveller_type_run, (traveller_type_run_in split 0%nat d (mkWorld [d] []) eq_refl).
  rewrite Hstats. cbv beta iota zeta delta [ok]. rewrite Hcol. cbv beta iota delta [ok].
  rewrite Epie. cbv beta iota delta [ok]. rewrite Hbars. cbv beta iota delta [ok].
  rewrite Ebar. cbv beta iota delta [ok].
  rewrite (series_plot_bar_nonempty bars Hne). unfold plt_pie.
  destruct (shares (value_counts (cells col))) as [|sl sls]; [congruence|].
  cbv beta iota delta [ok]. cbn [fst snd out app]. rewrite List.map_map. reflexivity.
Qed.

Lemma X16_traveller_type_report_witness :
  exists colors colors2,
    fst (call (traveller_type (CStr "Economy"))
           (mkFrame [ ("Type of Traveller"%string,
                       mkSeries Object [CStr "Business"; CStr "Solo Leisure"; CStr "Business"]);
                      ("Overall Rating"%string, mkSeries Float64 [CNum 1; CNum 2; CNum 3]);
                      ("Recommended"%string, mkSeries Boolean [CBool true; CBool false; CBool false]) ]))
    = ok tt
    /\ colors = ["red"; "lightblue"]%string /\ colors2 = ["red"; "lightblue"]%string.
Proof.
  destruct (X16_traveller_type_report (CStr "Economy")
              (mkFrame [ ("Type of Traveller"%string,
                          mkSeries Object [CStr "Business"; CStr "Solo Leisure"; CStr "Business"]);
                         ("Overall Rating"%string, mkSeries Float64 [CNum 1; CNum 2; CNum 3]);
                         ("Recommended"%string, mkSeries Boolean [CBool true; CBool false; CBool false]) ])
              (mkSeries Object [CStr "Business"; CStr "Solo Leisure"; CStr "Business"])
              [(CStr "Business",
                NumSummary (mkNumSummary 2 (Rat 2) (Sqrt 2) (Rat 1) (Rat (3 # 2)) (Rat 2) (Rat (5 # 2)) (Rat 3)));
               (CStr "Solo Leisure",
                NumSummary (mkNumSummary 1 (Rat 2) NaN (Rat 2) (Rat 2) (Rat 2) (Rat 2) (Rat 2)))]
              [(CStr "Business", Some 50); (CStr "Solo Leisure", Some 0)])
    as (colors & colors2 & Hrun & Hpie & Hbar).
  - reflexivity.
  - vm_compute. reflexivity.
  - vm_compute. reflexivity.
  - intros t [<-|[<-|[<-|[]]]] _; eexists; vm_compute; reflexivity.
  - exists (CStr "Business"). split; [left; reflexivity|reflexivity].
  - exists colors, colors2. split; [rewrite Hrun; reflexivity|].
    vm_compute in Hpie, Hbar.
    inversion Hpie as [|? ? ? ? H1 Hp1]; subst. inversion Hp1 as [|? ? ? ? H2 Hp2]; subst.
    inversion Hp2; subst.
    inversion Hbar as [|? ? ? ? H3 Hb1]; subst. inversion Hb1 as [|? ? ? ? H4 Hb2]; subst.
    inversion Hb2; subst.
    injection H1 as <-. injection H2 as <-. injection H3 as <-. injection H4 as <-.
    split; reflexivity.
Defined.

(** X17: when the column Recommended is missing while the traveller types
    are all in [color_map], [traveller_type] prints its header and the
    grouped statistics and then fails with a [KeyError]: no figure is
    shown, the pie chart included, because both colour lists and the
    percentages are computed before the first figure is drawn. *)
Theorem X17_traveller_type_without_recommended
    (split : cell) (d : DataFrame) (col : Series) (stats : list (cell * summary1)) (e : exn) :
  getcol d "Type of Traveller" = ok col ->
  groupby_describe d "Type of Traveller" "Overall Rating" = ok stats ->
  (forall t, In t (cells col) -> is_na t = false ->
             exists c, dict_get color_map t = Some c) ->
  getcol d "Recommended" = inl e ->
  exists key,
    call (traveller_type split) d
    = (fail (KeyError key), [Print (LHeader split); Print (LGroupDescribe stats)]).
Proof.
  intros Hcol Hstats Hmapped Hrec. exists (CStr "Recommended").
  destruct (pie_colors_mapped (map fst (shares (value_counts (cells col)))))
    as (colors & Epie & _).
  { intros k Hk. rewrite shares_keys in Hk.
    apply value_counts_keys, unique_In, filter_In in Hk. destruct Hk as [Hk Hna].
    apply Hmapped; [exact Hk|]. destruct (is_na k); [discriminate|reflexivity]. }
  assert (Hps : percent_series d "Type of Traveller" "Recommended"
                = fail (KeyError (CStr "Recommended"))).
  { unfold percent_series, groupby_mean. rewrite Hcol. cbn [rbind ok].
    unfold getcol in *. destruct (assoc "Recommended" (columns d)); [discriminate|reflexivity]. }
  rewrite traveller_type_run, (traveller_type_run_in split 0%nat d (mkWorld [d] []) eq_refl).
  rewrite Hstats. cbv beta iota zeta delta [ok]. rewrite Hcol. cbv beta iota delta [ok].
  rewrite Epie. cbv beta iota delta [ok]. rewrite Hps. reflexivity.
Qed.

Lemma X17_traveller_type_without_recommended_witness :
  snd (call (traveller_type (CStr "Economy"))
         (mkFrame [ ("Type of Traveller"%string, mkSeries Object [CStr "Business"]);
                    ("Overall Rating"%string, mkSeries Float64 [CNum 4]) ]))
  = [Print (LHeader (CStr "Economy"));
     Print (LGroupDescribe
              [(CStr "Business",
                NumSummary (mkNumSummary 1 (Rat 4) NaN (Rat 4) (Rat 4) (Rat 4) (Rat 4) (Rat 4)))])].
Proof.
  destruct (X17_traveller_type_without_recommended (CStr "Economy")
              (mkFrame [ ("Type of Traveller"%string, mkSeries Object [CStr "Business"]);
                         ("Overall Rating"%string, mkSeries Float64 [CNum 4]) ])
              (mkSeries Object [CStr "Business"])
              [(CStr "Business",
                NumSummary (mkNumSummary 1 (Rat 4) NaN (Rat 4) (Rat 4) (Rat 4) (Rat 4) (Rat 4)))]
              (KeyError (CStr "Recommended"))) as (key & H).
  - reflexivity.
  - vm_compute. reflexivity.
  - intros t [<-|[]] _. eexists. vm_compute. reflexivity.
  - reflexivity.
  - rewrite H. reflexivity.
Defined.

(** X19: when the column of traveller types holds no value (a table
    without rows, or missing values only), [traveller_type] prints its
    header and the grouped statistics, which are empty, and fails when it
    draws the pie chart, which has no slice: no figure is shown. *)
Theorem X19_traveller_type_without_types
    (split : cell) (d : DataFrame) (col : Series) (stats : list (cell * summary1))
    (bars : list (cell * option Q)) :
  getcol d "Type of Traveller" = ok col ->
  groupby_describe d "Type of Traveller" "Overall Rating" = ok stats ->
  percent_series d "Type of Traveller" "Recommended" = ok bars ->
  (forall t, In t (cells col) -> is_na t = true) ->
  stats = []
  /\ exists msg,
       call (traveller_type split) d
       = (fail (ValueError msg), [Print (LHeader split); Print (LGroupDescribe stats)]).
Proof.
  intros Hcol Hstats Hbars Hall.
  assert (Hkeys : group_keys (cells col) = []).
  { destruct (group_keys (cells col)) as [|k l] eqn:E; [reflexivity|]. exfalso.
    destruct (group_keys_In (cells col) k) as [Hk Hna]; [rewrite E; left; reflexivity|].
    rewrite (Hall k Hk) in Hna. discriminate Hna. }
  split.
  { unfold groupby_describe in Hstats. rewrite Hcol in Hstats. cbn [rbind ok] in Hstats.
    destruct (getcol d "Overall Rating"); cbn [rbind] in Hstats; [discriminate|].
    rewrite Hkeys in Hstats. injection Hstats as <-. reflexivity. }
  eexists.
  rewrite traveller_type_run, (traveller_type_run_in split 0%nat d (mkWorld [d] []) eq_refl).
  rewrite Hstats. cbv beta iota zeta delta [ok]. rewrite Hcol. cbv beta iota delta [ok].
  rewrite (value_counts_all_missing (cells col) Hall). cbn [map pie_colors rmap].
  cbv beta iota delta [ok]. rewrite Hbars. cbv beta iota delta [ok].
  rewrite bar_colors_total. reflexivity.
Qed.

Lemma X19_traveller_type_without_types_witness :
  exists msg,
    call (traveller_type (CStr "Economy"))
      (mkFrame [ ("Type of Traveller"%string, mkSeries Object []);
                 ("Overall Rating"%string, mkSeries Float64 []);
                 ("Recommended"%string, mkSeries Boolean []) ])
    = (fail (ValueError msg), [Print (LHeader (CStr "Economy")); Print (LGroupDescribe [])]).
Proof.
  destruct (X19_traveller_type_without_types (CStr "Economy")
              (mkFrame [ ("Type of Traveller"%string, mkSeries Object []);
                         ("Overall Rating"%string, mkSeries Float64 []);
                         ("Recommended"%string, mkSeries Boolean []) ])
              (mkSeries Object []) [] []) as [_ H].
  - reflexivity.
  - reflexivity.
  - reflexivity.
  - intros t [].
  - exact H.
Defined.

Lemma plt_subplots_panels (ver hor : Z) :
  (0 < ver)%Z -> (0 < hor)%Z ->
  exists ax, plt_subplots ver hor = ok ax
             /\ match ax with AxesArray l => l | OneAxes p => [p] end
                = replicate (Z.to_nat (ver * hor)) empty_panel.
Proof.
  intros Hv Hh. unfold plt_subplots.
  destruct (Z.leb_spec ver 0); [lia|]. destruct (Z.leb_spec hor 0); [lia|].
  destruct (Z.eqb_spec (ver * hor) 1) as [E|E]; eexists; (split; [reflexivity|]).
  - rewrite E. reflexivity.
  - reflexivity.
Qed.

(** X18: the edge cases of [normality_check]. A grid with no row or no
    column is refused by [plt.subplots] with a [ValueError] before the table
    is looked at, so nothing is printed whatever the table. On a proper
    grid, a missing grouping column gives a [KeyError] naming it with
    nothing printed, and a table without rows gives no test line and a
    figure whose panels are all empty. *)
Theorem X18_normality_check_edges
    (ver_plots hor_plots : Z) (splitter feature : string) (d : DataFrame) :
  ((ver_plots <= 0)%Z \/ (hor_plots <= 0)%Z ->
   exists msg, call (normality_check ver_plots hor_plots splitter feature) d
               = (fail (ValueError msg), []))
  /\ ((0 < ver_plots)%Z -> (0 < hor_plots)%Z ->
      (forall e, getcol d splitter = inl e ->
                 call (normality_check ver_plots hor_plots splitter feature) d
                 = (fail (KeyError (CStr splitter)), []))
      /\ (forall ks, getcol d splitter = ok ks -> cells ks = [] ->
                     call (normality_check ver_plots hor_plots splitter feature) d
                     = (ok tt,
                        [Show (FigQQ (replicate (Z.to_nat (ver_plots * hor_plots))
                                        empty_panel))]))).
Proof.
  split.
  - intros Hgrid. rewrite normality_check_run. unfold plt_subplots.
    destruct (Z.leb_spec ver_plots 0); [eexists; reflexivity|].
    destruct (Z.leb_spec hor_plots 0); [eexists; reflexivity|]. lia.
  - intros Hv Hh. destruct (plt_subplots_panels ver_plots hor_plots Hv Hh) as (ax & Hax & Hpanels).
    split.
    + intros e He. rewrite normality_check_run, Hax. cbv beta iota delta [ok].
      unfold getcol in *. destruct (assoc splitter (columns d)); [discriminate|reflexivity].
    + intros ks Hks Hempty. rewrite normality_check_run, Hax. cbv beta iota delta [ok].
      rewrite Hks. cbv beta iota delta [ok]. rewrite Hempty, Hpanels. reflexivity.
Qed.

Lemma X18_normality_check_edges_witness :
  (exists msg, call (normality_check 0 3 "Class" "Food") df_ratings
               = (fail (ValueError msg), []))
  /\ call (normality_check 2 2 "Cabin" "Food") df_ratings
     = (fail (KeyError (CStr "Cabin")), [])
  /\ call (normality_check 2 2 "Class" "Food")
       (mkFrame [("Class"%string, mkSeries Object []); ("Food"%string, mkSeries Float64 [])])
     = (ok tt, [Show (FigQQ (replicate 4 empty_panel))]).
Proof.
  split; [|split].
  - apply (proj1 (X18_normality_check_edges 0 3 "Class" "Food" df_ratings)). left. lia.
  - apply (proj1 (proj2 (X18_normality_check_edges 2 2 "Cabin" "Food" df_ratings)
                    ltac:(lia) ltac:(lia)) (KeyError (CStr "Cabin"))).
    reflexivity.
  - apply (proj2 (proj2 (X18_normality_check_edges 2 2 "Class" "Food"
                           (mkFrame [("Class"%string, mkSeries Object []);
                                     ("Food"%string, mkSeries Float64 [])]))
                    ltac:(lia) ltac:(lia)) (mkSeries Object [])); reflexivity.
Defined.
